(** * csv-to-json-api: the CSV parser, the row validator and the age report

    A shallow embedding of [utils/csvParser.js] (the code that follows the
    project description in [README.md]): [setNestedProperty], [splitCSVLine],
    [parseCSV], [uploadToDB] and [printAgeDistribution], with the properties
    of the specification stated and settled over it.

    Modelling conventions.
    - A JavaScript string is the list of its UTF-16 code units; a code unit is
      an [N].  No operation of the program depends on the bound 65535.
    - A JavaScript value built by the parser is a string or a plain object;
      an object is the list of its own properties in insertion order
      (JavaScript enumerates integer-like names first; nothing here depends
      on the order).  The model is exact for every property name but
      [__proto__], whose assignment goes through the prototype setter; the
      theorems that read properties back assume that no header path has that
      segment ([plain_header]).
    - [parseInt] returns the mathematical integer it has read, before the
      conversion to a Number; the two agree below 2^53.
    - A Number that enters the percentage computation is an IEEE binary64
      value ([spec_float] with precision 53 and maximal exponent 1024).
    - [throw] is a result of its own ([Throws]); the database and the file
      system are parameters. *)

From Stdlib Require Import Strings.String Strings.Ascii.
From Stdlib Require Import List NArith ZArith Bool Lia Arith.
From Stdlib Require Import Floats.SpecFloat DecimalNat Permutation Sorted.
Import ListNotations.

Set Implicit Arguments.
Set Warnings "-register-all".

(** ** Strings *)

Module JsString.

Definition char16 := N.
Definition jsstring := list char16.

(** An ASCII literal as a JavaScript string. *)
Definition lit (s : string) : jsstring :=
  map N_of_ascii (list_ascii_of_string s).

Definition QUOTE : char16 := 34%N.
Definition COMMA : char16 := 44%N.
Definition DOT : char16 := 46%N.
Definition LF : char16 := 10%N.
Definition CR : char16 := 13%N.

Fixpoint eqb (a b : jsstring) : bool :=
  match a, b with
  | [], [] => true
  | x :: a', y :: b' => N.eqb x y && eqb a' b'
  | _, _ => false
  end.

(** White space and line terminators of ECMAScript, the characters that
    [String.prototype.trim] and [parseInt] strip. *)
Definition is_ws (c : char16) : bool :=
  ((9 <=? c) && (c <=? 13) || (c =? 32) || (c =? 160) || (c =? 5760)
   || (8192 <=? c) && (c <=? 8202) || (c =? 8232) || (c =? 8233)
   || (c =? 8239) || (c =? 8287) || (c =? 12288) || (c =? 65279))%N.

Fixpoint trimStart (s : jsstring) : jsstring :=
  match s with
  | [] => []
  | c :: r => if is_ws c then trimStart r else s
  end.

Definition trimEnd (s : jsstring) : jsstring := rev (trimStart (rev s)).

(** [s.trim()] *)
Definition trim (s : jsstring) : jsstring := trimEnd (trimStart s).

(** [s.split(sep)] for a separator of one character: never the empty list. *)
Fixpoint split (sep : char16) (s : jsstring) : list jsstring :=
  match s with
  | [] => [[]]
  | c :: r =>
      if N.eqb c sep then [] :: split sep r
      else match split sep r with
           | h :: t => (c :: h) :: t
           | [] => [[c]]
           end
  end.

(** [l.join(sep)] *)
Fixpoint join (sep : jsstring) (l : list jsstring) : jsstring :=
  match l with
  | [] => []
  | [x] => x
  | x :: r => x ++ sep ++ join sep r
  end.

(** [s.replace(/\r\n/g, '\n')] *)
Fixpoint replace_crlf (s : jsstring) : jsstring :=
  match s with
  | [] => []
  | c :: r =>
      match r with
      | d :: r' =>
          if N.eqb c CR && N.eqb d LF then LF :: replace_crlf r'
          else c :: replace_crlf r
      | [] => [c]
      end
  end.

(** [s.replace(/\r/g, '\n')] *)
Definition replace_cr (s : jsstring) : jsstring :=
  map (fun c => if N.eqb c CR then LF else c) s.

(** The decimal digits of a natural number, as [Number.prototype.toString]
    prints a non-negative integer. *)
Fixpoint uint_chars (u : Decimal.uint) : jsstring :=
  match u with
  | Decimal.Nil => []
  | Decimal.D0 r => 48%N :: uint_chars r
  | Decimal.D1 r => 49%N :: uint_chars r
  | Decimal.D2 r => 50%N :: uint_chars r
  | Decimal.D3 r => 51%N :: uint_chars r
  | Decimal.D4 r => 52%N :: uint_chars r
  | Decimal.D5 r => 53%N :: uint_chars r
  | Decimal.D6 r => 54%N :: uint_chars r
  | Decimal.D7 r => 55%N :: uint_chars r
  | Decimal.D8 r => 56%N :: uint_chars r
  | Decimal.D9 r => 57%N :: uint_chars r
  end.

Definition decimal (n : nat) : jsstring := uint_chars (Nat.to_uint n).

End JsString.
Import JsString.

(** ** Values and objects *)

Inductive value : Type :=
  | VStr (s : jsstring)
  | VObj (o : list (jsstring * value)).

Definition object := list (jsstring * value).

(** [o[k]] on own properties: [None] is [undefined]. *)
Fixpoint get (k : jsstring) (o : object) : option value :=
  match o with
  | [] => None
  | (k', v) :: r => if JsString.eqb k k' then Some v else get k r
  end.

(** [o[k] = v]: an existing property keeps its place, a new one goes last.
    This is the assignment of JavaScript for every name but [__proto__],
    which goes through the accessor of [Object.prototype] and makes no
    property of the object; the statements over objects that the program
    builds exclude that name ([plain_header], [plainKey]). *)
Fixpoint assign (k : jsstring) (v : value) (o : object) : object :=
  match o with
  | [] => [(k, v)]
  | (k', v') :: r =>
      if JsString.eqb k k' then (k', v) :: r else (k', v') :: assign k v r
  end.

Definition has (k : jsstring) (o : object) : bool :=
  match get k o with Some _ => true | None => false end.

(** The values of an object, [Object.values(o)]. *)
Definition values (o : object) : list value := map snd o.

(** ** setNestedProperty *)

(** The walk of [keys.forEach]: [current] is the object the walk stands in.
    On the last key the value is assigned; before it, the property is kept
    when it is an object and replaced by a fresh [{}] otherwise (absent, an
    empty string, or any other string), and the walk goes down into it.
    A segment [__proto__] is outside this model: there the program reads the
    prototype, writes into it, or fails on [__proto__.__proto__]. *)
Fixpoint setPath (keys : list jsstring) (v : value) (current : object) : object :=
  match keys with
  | [] => current
  | [key] => assign key v current
  | key :: rest =>
      let child := match get key current with
                   | Some (VObj o) => o
                   | _ => []
                   end in
      assign key (VObj (setPath rest v child)) current
  end.

Definition setNestedProperty (obj : object) (keyPath : jsstring) (v : value) : object :=
  setPath (split DOT keyPath) v obj.

(** ** splitCSVLine *)

(** The [for] loop of the tokenizer over the characters still to read, with
    its three variables.  [i++] inside the escaped-quote branch is the jump
    over the second quote. *)
Fixpoint scan (line : jsstring) (fields : list jsstring) (field : jsstring)
         (inQuotes : bool) : list jsstring :=
  match line with
  | [] => fields ++ [field]
  | ch :: rest =>
      if N.eqb ch QUOTE then
        match rest with
        | next :: rest' =>
            if inQuotes && N.eqb next QUOTE
            then scan rest' fields (field ++ [QUOTE]) inQuotes
            else scan rest fields field (negb inQuotes)
        | [] => scan rest fields field (negb inQuotes)
        end
      else if N.eqb ch COMMA && negb inQuotes then
        scan rest (fields ++ [field]) [] inQuotes
      else scan rest fields (field ++ [ch]) inQuotes
  end.

Definition splitCSVLine (line : jsstring) : list jsstring :=
  map trim (scan line [] [] false).

(** ** JSON.stringify on the values of the parser *)

Module Json.

Definition hexdigit (n : N) : char16 :=
  (if n <? 10 then 48 + n else 87 + n)%N.

(** [\uXXXX] with lower-case hexadecimal digits. *)
Definition unicodeEscape (c : char16) : jsstring :=
  [92; 117]%N ++
  [hexdigit (c / 4096 mod 16); hexdigit (c / 256 mod 16);
   hexdigit (c / 16 mod 16); hexdigit (c mod 16)]%N.

Definition isHigh (c : char16) : bool := ((55296 <=? c) && (c <=? 56319))%N.
Definition isLow (c : char16) : bool := ((56320 <=? c) && (c <=? 57343))%N.

Definition escapeUnit (c : char16) : jsstring :=
  (if c =? 8 then [92; 98]
   else if c =? 9 then [92; 116]
   else if c =? 10 then [92; 110]
   else if c =? 12 then [92; 102]
   else if c =? 13 then [92; 114]
   else if c =? 34 then [92; 34]
   else if c =? 92 then [92; 92]
   else if (c <? 32) || isHigh c || isLow c then unicodeEscape c
   else [c])%N.

(** The characters between the quotes of QuoteJSONString: a surrogate pair
    stays as it is, a lone surrogate is escaped. *)
Fixpoint quoteBody (s : jsstring) : jsstring :=
  match s with
  | [] => []
  | c :: r =>
      match r with
      | d :: r' =>
          if isHigh c && isLow d then c :: d :: quoteBody r'
          else escapeUnit c ++ quoteBody r
      | [] => escapeUnit c
      end
  end.

Definition quoteJSON (s : jsstring) : jsstring := [QUOTE] ++ quoteBody s ++ [QUOTE].

(** [JSON.stringify(v)].  The members are written in the order of the
    property list; JavaScript writes integer-like names first, which changes
    the order of the members and nothing else. *)
Fixpoint stringify (v : value) : jsstring :=
  match v with
  | VStr s => quoteJSON s
  | VObj o =>
      let fix members (l : list (jsstring * value)) : list jsstring :=
        match l with
        | [] => []
        | (k, c) :: r => (quoteJSON k ++ [58%N] ++ stringify c) :: members r
        end in
      [123%N] ++ join [COMMA] (members o) ++ [125%N]
  end.

End Json.

(** ** parseCSV *)

Record Parsed := { headers : list jsstring; records : list object }.

(** [fields[idx] !== undefined ? fields[idx] : ''] *)
Definition fieldAt (fields : list jsstring) (idx : nat) : jsstring :=
  match nth_error fields idx with
  | Some f => f
  | None => []
  end.

(** [while (fields.length < headers.length) fields.push('')] *)
Definition padFields (n : nat) (fields : list jsstring) : list jsstring :=
  fields ++ repeat [] (n - length fields).

(** [headers.forEach((key, idx) => setNestedProperty(row, key, ...))] *)
Definition fillRow (hs : list jsstring) (fields : list jsstring) (row : object) : object :=
  fold_left
    (fun row ik => setNestedProperty row (snd ik) (VStr (fieldAt fields (fst ik))))
    (combine (seq 0 (length hs)) hs) row.

(** The object [extra] of the surplus fields, for [j] from [headers.length]
    to [fields.length - 1]. *)
Definition extrasOf (n : nat) (fields : list jsstring) : object :=
  fold_left
    (fun extra j =>
       assign (lit "_extra_" ++ decimal (j - n + 1)) (VStr (fieldAt fields j)) extra)
    (seq n (length fields - n)) [].

(** The body of the loop over the data lines, from the tokenized fields to
    the row object. *)
Definition buildRow (hs : list jsstring) (fields0 : list jsstring) : object :=
  let fields := if length fields0 <? length hs then padFields (length hs) fields0
                else fields0 in
  let row := fillRow hs fields [] in
  if length hs <? length fields then
    let extra := extrasOf (length hs) fields in
    if 0 <? length extra then assign (lit "__extras") (VObj extra) row else row
  else row.

(** The callback of [Object.values(row).some(...)]. *)
Definition nonEmptyValue (val : value) : bool :=
  match val with
  | VObj _ =>
      let kept := filter (fun c => negb (N.eqb c 34 || N.eqb c 123 || N.eqb c 125))
                         (Json.stringify val) in
      0 <? length (trim kept)
  | VStr s => 0 <? length (trim s)
  end.

Definition anyNonEmpty (row : object) : bool := existsb nonEmptyValue (values row).

Definition parseCSV (data : jsstring) : Parsed :=
  match data with
  | [] => {| headers := []; records := [] |}
  | _ =>
    match trim data with
    | [] => {| headers := []; records := [] |}
    | _ =>
      let rawLines := split LF (replace_cr (replace_crlf data)) in
      let lines := filter (fun l => 0 <? length (trim l)) rawLines in
      match lines with
      | [] => {| headers := []; records := [] |}
      | headerLine :: rest =>
          let hs := map trim (splitCSVLine headerLine) in
          {| headers := hs;
             records := filter anyNonEmpty
                          (map (fun raw => buildRow hs (splitCSVLine raw)) rest) |}
      end
    end
  end.

Definition sampleCSV : jsstring :=
  lit "name.firstName,name.lastName,age,address.line1,address.city,address.state,gender"
  ++ [LF] ++ lit "Rohit,Prasad,35," ++ [QUOTE] ++ lit "A-563, Rakshak Society" ++ [QUOTE]
  ++ lit ",Pune,Maharashtra,male"
  ++ [CR; LF] ++ lit "Ananya,Deshmukh,28,Flat 204,Thane,Maharashtra,female" ++ [LF].


(** ** Exceptions *)

Inductive exn : Type :=
  | Error (message : jsstring)   (* [new Error(message)] *)
  | TypeError                    (* raised by a failed conversion *)
  | FsError.                     (* raised by [fs.readFileSync] *)

Inductive completion (A : Type) : Type :=
  | Returns (a : A)
  | Throws (e : exn).
Arguments Returns {A} a.
Arguments Throws {A} e.

Definition bind {A B} (c : completion A) (k : A -> completion B) : completion B :=
  match c with
  | Returns a => k a
  | Throws e => Throws e
  end.

Notation "x <- c ;; k" := (bind c (fun x => k))
  (at level 61, c at next level, right associativity).

(** [for (const x of l) body]: the loop stops at the first [throw]. *)
Fixpoint forOf {A S} (body : S -> A -> completion S) (l : list A) (s : S)
  : completion S :=
  match l with
  | [] => Returns s
  | x :: r => s' <- body s x ;; forOf body r s'
  end.

(** ** Conversions *)

Definition objectObject : jsstring := lit "[object Object]".

(** [String(v)], also the conversion inside a template literal.  A plain
    object without a property [toString] of its own prints through
    [Object.prototype.toString].  With one, which here is a string or an
    object and so cannot be called, the conversion falls to [valueOf], which
    is either a property of the same kind or the inherited one that returns
    the object itself, and ends in a TypeError. *)
Definition ToString (v : value) : completion jsstring :=
  match v with
  | VStr s => Returns s
  | VObj o => if has (lit "toString") o then Throws TypeError else Returns objectObject
  end.

(** [!v] negated: the only falsy value of the parser is the empty string. *)
Definition truthy (v : value) : bool :=
  match v with
  | VStr [] => false
  | _ => true
  end.

(** [v?.k]: a property of an object; a string has no property of the names
    used here ([name], [firstName], [lastName], [age]); [undefined] passes
    through. *)
Definition optGet (v : option value) (k : jsstring) : option value :=
  match v with
  | Some (VObj o) => get k o
  | _ => None
  end.

(** [v ?? ''] *)
Definition orEmpty (v : option value) : value :=
  match v with
  | Some x => x
  | None => VStr []
  end.

(** ** parseInt *)

Module ParseInt.

Definition digitValue (c : char16) : option N :=
  (if (48 <=? c) && (c <=? 57) then Some (c - 48)
   else if (97 <=? c) && (c <=? 122) then Some (c - 87)
   else if (65 <=? c) && (c <=? 90) then Some (c - 55)
   else None)%N.

Definition digitIn (radix : N) (c : char16) : option N :=
  match digitValue c with
  | Some d => if (d <? radix)%N then Some d else None
  | None => None
  end.

(** The longest prefix of digits of the radix, as digit values. *)
Fixpoint digitsPrefix (radix : N) (s : jsstring) : list N :=
  match s with
  | [] => []
  | c :: r =>
      match digitIn radix c with
      | Some d => d :: digitsPrefix radix r
      | None => []
      end
  end.

Definition valueOf (radix : N) (ds : list N) : N :=
  fold_left (fun acc d => (acc * radix + d)%N) ds 0%N.

(** The sign character, if any, and the rest. *)
Definition readSign (s : jsstring) : Z * jsstring :=
  match s with
  | c :: r =>
      if (c =? 45)%N then ((-1)%Z, r)
      else if (c =? 43)%N then (1%Z, r)
      else (1%Z, s)
  | [] => (1%Z, s)
  end.

(** Without a radix argument the prefix [0x] or [0X] selects radix 16. *)
Definition readRadix (s : jsstring) : N * jsstring :=
  match s with
  | c0 :: c1 :: r =>
      if ((c0 =? 48) && ((c1 =? 120) || (c1 =? 88)))%N then (16%N, r)
      else (10%N, s)
  | _ => (10%N, s)
  end.

(** [parseInt(s)]: [None] is [NaN].  The result is the integer that has
    been read; it is the Number that the program gets as long as it is at
    most 2^53 in absolute value ([exactBound]), beyond which the program
    gets the nearest double. *)
Definition parseInt (s : jsstring) : option Z :=
  let (sign, s1) := readSign (trimStart s) in
  let (radix, s2) := readRadix s1 in
  match digitsPrefix radix s2 with
  | [] => None
  | ds => Some (sign * Z.of_N (valueOf radix ds))%Z
  end.

End ParseInt.
Import ParseInt.

(** ** uploadToDB *)

Record Skip := { lineIndex : nat; reason : jsstring }.

Record Summary := {
  insertedCount : nat;
  skipped : list Skip;
  totalRows : nat
}.

(** The values of one [INSERT INTO users(name, age, address, additional_info)]. *)
Record InsertRow := {
  row_name : jsstring;
  row_age : Z;
  row_address : object;
  row_additional : object
}.

(** [process.env.CSV_FILE_PATH] and the two calls to [fs]. *)
Record Env := {
  CSV_FILE_PATH : option jsstring;
  existsSync : jsstring -> bool;
  readFileSync : jsstring -> option jsstring   (* [None]: the call throws *)
}.

(** The object rest of [{ name: _n, age: _a, address = {}, ...rest } = rec]:
    the own properties of [rec] that the pattern has not named. *)
Definition restOf (rec : object) : object :=
  filter (fun kv => negb (JsString.eqb (fst kv) (lit "name")
                          || JsString.eqb (fst kv) (lit "age")
                          || JsString.eqb (fst kv) (lit "address"))) rec.

Definition missingName : jsstring := lit "Missing name.firstName or name.lastName".

Definition invalidAge (raw : jsstring) : jsstring :=
  lit "Invalid age: " ++ [QUOTE] ++ raw ++ [QUOTE].

Definition insertError (message : jsstring) : jsstring :=
  lit "DB insert error: " ++ message.

(** [rec?.name?.firstName ?? ''], [rec?.name?.lastName ?? ''], [rec?.age ?? ''] *)
Definition firstNameOf (rec : object) : value :=
  orEmpty (optGet (get (lit "name") rec) (lit "firstName")).
Definition lastNameOf (rec : object) : value :=
  orEmpty (optGet (get (lit "name") rec) (lit "lastName")).
Definition ageRawOf (rec : object) : value :=
  orEmpty (get (lit "age") rec).

(** The part of the loop body before the query, which touches neither the
    pool nor the counters: the reason to skip the row ([inr]) or the values
    to insert ([inl]). *)
Definition validateRow (rec : object) : completion (InsertRow + jsstring) :=
  let firstName := firstNameOf rec in
  let lastName := lastNameOf rec in
  let ageRaw := ageRawOf rec in
  if negb (truthy firstName) || negb (truthy lastName) then
    Returns (inr missingName)
  else
    ageStr <- ToString ageRaw ;;
    match parseInt (trim ageStr) with
    | None =>
        raw <- ToString ageRaw ;;
        Returns (inr (invalidAge raw))
    | Some age =>
        first <- ToString firstName ;;
        last <- ToString lastName ;;
        let name := trim first ++ lit " " ++ trim last in
        let address := match get (lit "address") rec with
                       | Some a => a
                       | None => VObj []
                       end in
        let rest := restOf rec in
        let addressObj := match address with
                          | VObj o => o
                          | VStr _ => []
                          end in
        Returns (inl {| row_name := name; row_age := age;
                        row_address := addressObj; row_additional := rest |})
    end.

Section Upload.

(** The connection pool: [pool.query] of the INSERT either resolves or
    rejects with an [Error] whose message is given. *)
Variable Pool : Type.
Variable query : Pool -> InsertRow -> Pool * option jsstring.

(** The variables of the loop over the records. *)
Record Loop := {
  pool : Pool;
  inserted : nat;
  skips : list Skip;
  line : nat
}.

(** [skipped.push({ lineIndex, reason }); lineIndex++; continue] *)
Definition skipRow (st : Loop) (why : jsstring) : Loop :=
  {| pool := pool st; inserted := inserted st;
     skips := skips st ++ [{| lineIndex := line st; reason := why |}];
     line := S (line st) |}.

(** The end of one turn of the loop, after [await pool.query(...)]:
    [insertedCount++] when the query resolved, the push of the [catch]
    block when it rejected, and [lineIndex++] in both cases. *)
Definition settle (st : Loop) (answer : Pool * option jsstring) : Loop :=
  match answer with
  | (p, None) =>
      {| pool := p; inserted := S (inserted st);
         skips := skips st; line := S (line st) |}
  | (p, Some message) =>
      {| pool := p; inserted := inserted st;
         skips := skips st ++
                  [{| lineIndex := line st; reason := insertError message |}];
         line := S (line st) |}
  end.

(** The body of [for (const rec of records)]. *)
Definition rowStep (st : Loop) (rec : object) : completion Loop :=
  checked <- validateRow rec ;;
  match checked with
  | inr why => Returns (skipRow st why)
  | inl row => Returns (settle st (query (pool st) row))
  end.

Definition notSet : jsstring := lit "CSV_FILE_PATH not set in .env".

Definition uploadToDB (env : Env) (p : Pool) : completion (Pool * Summary) :=
  match CSV_FILE_PATH env with
  | None | Some [] => Throws (Error notSet)
  | Some filePath =>
      if negb (existsSync env filePath) then
        Returns (p, {| insertedCount := 0; skipped := []; totalRows := 0 |})
      else
        match readFileSync env filePath with
        | None => Throws FsError
        | Some csvData =>
            let parsed := parseCSV csvData in
            if (length (headers parsed) =? 0) || (length (records parsed) =? 0) then
              Returns (p, {| insertedCount := 0; skipped := [];
                             totalRows := length (records parsed) |})
            else
              st <- forOf rowStep (records parsed)
                      {| pool := p; inserted := 0; skips := []; line := 1 |} ;;
              Returns (pool st,
                       {| insertedCount := inserted st; skipped := skips st;
                          totalRows := length (records parsed) |})
        end
  end.

End Upload.

(** ** printAgeDistribution *)

Module JsNumber.

(** IEEE binary64. *)
Definition prec : Z := 53.
Definition emax : Z := 1024.

(** The Number of an integer. *)
Definition ofZ (z : Z) : spec_float := binary_normalize prec emax z 0 false.

Definition div : spec_float -> spec_float -> spec_float := SFdiv prec emax.
Definition mul : spec_float -> spec_float -> spec_float := SFmul prec emax.

(** [floor(m * 2^e + 1/2)], computed exactly. *)
Definition roundHalfUp (m e : Z) : Z :=
  if (0 <=? e)%Z then (m * 2 ^ e)%Z
  else ((2 * m + 2 ^ (- e)) / 2 ^ (1 - e))%Z.

(** [Math.round(x)]: the integer closest to [x], the one towards plus
    infinity when two are as close; zeros, infinities and NaN are returned
    as they are. *)
Definition Math_round (x : spec_float) : spec_float :=
  match x with
  | S754_finite s m e =>
      ofZ (roundHalfUp (if s then Z.neg m else Z.pos m) e)
  | _ => x
  end.

End JsNumber.

Record Groups (A : Type) := {
  lt20 : A;       (* '<20' *)
  from20to40 : A; (* '20–40' *)
  from40to60 : A; (* '40–60' *)
  gt60 : A        (* '>60' *)
}.

(** The [if ... else if] chain of the counting loop on one age. *)
Definition countAge (groups : Groups nat) (age : Z) : Groups nat :=
  if (age <=? 20)%Z then
    {| lt20 := S (lt20 groups); from20to40 := from20to40 groups;
       from40to60 := from40to60 groups; gt60 := gt60 groups |}
  else if (20 <? age)%Z && (age <=? 40)%Z then
    {| lt20 := lt20 groups; from20to40 := S (from20to40 groups);
       from40to60 := from40to60 groups; gt60 := gt60 groups |}
  else if (40 <? age)%Z && (age <=? 60)%Z then
    {| lt20 := lt20 groups; from20to40 := from20to40 groups;
       from40to60 := S (from40to60 groups); gt60 := gt60 groups |}
  else if (60 <? age)%Z then
    {| lt20 := lt20 groups; from20to40 := from20to40 groups;
       from40to60 := from40to60 groups; gt60 := S (gt60 groups) |}
  else groups.

Definition countAges (ages : list Z) : Groups nat :=
  fold_left countAge ages
    {| lt20 := 0; from20to40 := 0; from40to60 := 0; gt60 := 0 |}.

(** [Math.round((val / total) * 100)] *)
Definition percent (val total : nat) : spec_float :=
  JsNumber.Math_round
    (JsNumber.mul
       (JsNumber.div (JsNumber.ofZ (Z.of_nat val)) (JsNumber.ofZ (Z.of_nat total)))
       (JsNumber.ofZ 100)).

(** The percentages that the report prints for the ages that
    [SELECT age FROM users] returns; [None] when the table is empty and
    only the notice is printed. *)
Definition printAgeDistribution (ages : list Z) : option (Groups spec_float) :=
  let total := length ages in
  if total =? 0 then None
  else
    let groups := countAges ages in
    Some {| lt20 := percent (lt20 groups) total;
            from20to40 := percent (from20to40 groups) total;
            from40to60 := percent (from40to60 groups) total;
            gt60 := percent (gt60 groups) total |}.

(** * Definitions of the statements *)

(** ** Lines of cells, for the tokenizer *)

(** A cell of a CSV line as a writer produces it: within quotes, every
    quote of the content doubled, or bare. *)
Inductive cell : Type :=
  | Quoted (content : jsstring)
  | Bare (content : jsstring).

Definition content (c : cell) : jsstring :=
  match c with Quoted s => s | Bare s => s end.

Definition doubleQuotes (s : jsstring) : jsstring :=
  flat_map (fun c => if N.eqb c QUOTE then [QUOTE; QUOTE] else [c]) s.

Definition render (c : cell) : jsstring :=
  match c with
  | Quoted s => [QUOTE] ++ doubleQuotes s ++ [QUOTE]
  | Bare s => s
  end.

(** A bare cell holds neither a quote nor a comma. *)
Definition bare_ok (c : cell) : bool :=
  match c with
  | Quoted _ => true
  | Bare s => forallb (fun ch => negb (N.eqb ch QUOTE) && negb (N.eqb ch COMMA)) s
  end.

Definition csvLine (cells : list cell) : jsstring := join [COMMA] (map render cells).

(** The example line of the specification: an opening quote, [A, ], a
    doubled quote, [B], a doubled quote, the closing quote, then [,C]. *)
Definition exampleLine : jsstring :=
  [QUOTE] ++ lit "A, " ++ [QUOTE; QUOTE] ++ lit "B" ++ [QUOTE; QUOTE] ++ [QUOTE]
  ++ lit ",C".

(** ** Reading a record back *)

(** The value at a path of own properties: [v[k1][k2]...].  A string has
    no property here, and neither has an object a property that it
    inherits: [Some w] says that [w] is reached through own properties of
    objects all the way. *)
Fixpoint getPath (keys : list jsstring) (v : value) : option value :=
  match keys with
  | [] => Some v
  | k :: rest =>
      match v with
      | VObj o =>
          match get k o with
          | Some c => getPath rest c
          | None => None
          end
      | VStr _ => None
      end
  end.

(** The value of a row at a header key, through the dot path of the key. *)
Definition readKey (row : object) (keyPath : jsstring) : option value :=
  getPath (split DOT keyPath) (VObj row).

Definition paths (hs : list jsstring) : list (list jsstring) := map (split DOT) hs.

Fixpoint prefixb (p q : list jsstring) : bool :=
  match p, q with
  | [], _ => true
  | x :: p', y :: q' => JsString.eqb x y && prefixb p' q'
  | _ :: _, [] => false
  end.

(** Two paths clash when one is a prefix of the other; equal paths do. *)
Definition clash (p q : list jsstring) : bool := prefixb p q || prefixb q p.

(** No path of the list is a prefix of another one. *)
Fixpoint prefix_free (ps : list (list jsstring)) : bool :=
  match ps with
  | [] => true
  | p :: rest => forallb (fun q => negb (clash p q)) rest && prefix_free rest
  end.

Definition PROTO : jsstring := lit "__proto__".
Definition EXTRAS : jsstring := lit "__extras".

(** No segment of a header path is [__proto__]. *)
Definition plain_header (hs : list jsstring) : bool :=
  forallb (forallb (fun k => negb (JsString.eqb k PROTO))) (paths hs).

(** No header path starts at [__extras]. *)
Definition no_extras (hs : list jsstring) : bool :=
  forallb (fun p => match p with
                    | k :: _ => negb (JsString.eqb k EXTRAS)
                    | [] => true
                    end) (paths hs).

(** The lines that [parseCSV] keeps: header line first, then data lines. *)
Definition nonBlankLines (data : jsstring) : list jsstring :=
  filter (fun l => 0 <? length (trim l)) (split LF (replace_cr (replace_crlf data))).

(** The surplus fields under their keys, in the order of the line. *)
Definition extrasList (n : nat) (fields : list jsstring) : object :=
  map (fun j => (lit "_extra_" ++ decimal (j - n + 1), VStr (fieldAt fields j)))
      (seq n (length fields - n)).

(** A header of two distinct keys, one a prefix of the other, and one data
    line of two fields. *)
Definition nestedPrefixCSV : jsstring := lit "a,a.b" ++ [LF] ++ lit "1,2".

(** ** Stores and environments of the examples *)

(** A table that accepts every row. *)
Definition memPool := list InsertRow.
Definition memQuery (tbl : memPool) (r : InsertRow) : memPool * option jsstring :=
  (tbl ++ [r], None).

(** A table whose [age INT] column rejects what does not fit 32 bits. *)
Definition intQuery (tbl : memPool) (r : InsertRow) : memPool * option jsstring :=
  if ((-2147483648 <=? row_age r) && (row_age r <=? 2147483647))%Z
  then (tbl ++ [r], None)
  else (tbl, Some (lit "value out of range for type integer")).

Definition usersCsv : jsstring := lit "./data/users.csv".

(** The configured file exists and holds [data]. *)
Definition envOf (data : jsstring) : Env :=
  {| CSV_FILE_PATH := Some usersCsv;
     existsSync := fun _ => true;
     readFileSync := fun _ => Some data |}.

(** The configured path exists and cannot be read (a directory, a file
    without read permission). *)
Definition unreadableEnv : Env :=
  {| CSV_FILE_PATH := Some usersCsv;
     existsSync := fun _ => true;
     readFileSync := fun _ => None |}.

Definition nameAgeHeader : jsstring := lit "name.firstName,name.lastName,age".

(** One data line under the header [name.firstName,name.lastName,age]. *)
Definition oneRowCSV (dataLine : string) : jsstring :=
  nameAgeHeader ++ [LF] ++ lit dataLine.

Definition toStringCSV : jsstring :=
  lit "name.firstName.toString,name.lastName,age" ++ [LF] ++ lit "Rohit,Prasad,35".

(** ** The statements on the validator *)

(** The [additional] value as the specification words it: the record
    without its keys [name] and [age]. *)
Definition spec_additional (rec : object) : object :=
  filter (fun kv => negb (JsString.eqb (fst kv) (lit "name")
                          || JsString.eqb (fst kv) (lit "age"))) rec.

(** A name part is missing when it is absent, or empty once converted to a
    string and trimmed. *)
Definition blank (v : option value) : bool :=
  match v with
  | None => true
  | Some x =>
      match ToString x with
      | Returns s => length (trim s) =? 0
      | Throws _ => false
      end
  end.

(** The string of a value that converts; the empty string otherwise. *)
Definition coerced (v : value) : jsstring :=
  match ToString v with
  | Returns s => s
  | Throws _ => []
  end.

(** A value that [String] converts. *)
Definition coercibleValue (v : value) : bool :=
  match v with
  | VStr _ => true
  | VObj o => negb (has (lit "toString") o)
  end.

(** The three values of a record that the validator converts. *)
Definition coercible (rec : object) : bool :=
  coercibleValue (firstNameOf rec) && coercibleValue (lastNameOf rec)
  && coercibleValue (ageRawOf rec).

(** The integer that a text starts with, read in base 10 as the specification
    words it: white space, an optional sign, then decimal digits, at least one. *)
Definition leadingInt (s : jsstring) : option Z :=
  let (sign, s1) := readSign (trimStart s) in
  match digitsPrefix 10 s1 with
  | [] => None
  | ds => Some (sign * Z.of_N (valueOf 10 ds))%Z
  end.

(** The integer read in base 16 after the prefix: white space, an optional
    sign, the two characters of the prefix, then hexadecimal digits, at
    least one. *)
Definition leadingHex (s : jsstring) : option Z :=
  let (sign, s1) := readSign (trimStart s) in
  match digitsPrefix 16 (skipn 2 s1) with
  | [] => None
  | ds => Some (sign * Z.of_N (valueOf 16 ds))%Z
  end.

(** After white space and sign the text starts with [0x] or [0X]. *)
Definition hexPrefixed (s : jsstring) : bool :=
  N.eqb (fst (readRadix (snd (readSign (trimStart s))))) 16.

(** A string at a leaf of a value. *)
Inductive leafOf (s : jsstring) : value -> Prop :=
  | leaf_here : leafOf s (VStr s)
  | leaf_in (k : jsstring) (c : value) (o : object) :
      In (k, c) o -> leafOf s c -> leafOf s (VObj o).
Arguments leaf_here : clear implicits.
Arguments leaf_in : clear implicits.

(** The rows that a run on [memPool] has stored. *)
Definition storedRows (run : completion (memPool * Summary)) : list InsertRow :=
  match run with
  | Returns (tbl, _) => tbl
  | Throws _ => []
  end.

Definition summaryOf {P} (run : completion (P * Summary)) : option Summary :=
  match run with
  | Returns (_, s) => Some s
  | Throws _ => None
  end.

(** [rec?.name?.firstName] and [rec?.name?.lastName], absent or not. *)
Definition firstNameField (rec : object) : option value :=
  optGet (get (lit "name") rec) (lit "firstName").
Definition lastNameField (rec : object) : option value :=
  optGet (get (lit "name") rec) (lit "lastName").

(** The record of the first data line of the example file, and the row
    that the validator makes of it. *)
Definition rohit : object :=
  Eval vm_compute in hd [] (records (parseCSV sampleCSV)).

Definition rohitRow : InsertRow :=
  Eval vm_compute in
    match validateRow rohit with
    | Returns (inl row) => row
    | _ => {| row_name := []; row_age := 0; row_address := []; row_additional := [] |}
    end.

(** A file with a good row, a row without first name, a row whose age is
    no number and a row whose age does not fit the column. *)
Definition mixedCSV : jsstring :=
  nameAgeHeader ++ [LF] ++ lit "Rohit,Prasad,35"
  ++ [LF] ++ lit ",Deshmukh,28"
  ++ [LF] ++ lit "Ananya,Deshmukh,abc"
  ++ [LF] ++ lit "Kiran,Rao,99999999999".

Definition mixedOutcome : memPool * Summary :=
  Eval vm_compute in
    match uploadToDB intQuery (envOf mixedCSV) [] with
    | Returns x => x
    | Throws _ => ([], {| insertedCount := 0; skipped := []; totalRows := 0 |})
    end.

(** ** The statements on the report *)

(** [count / total * 100] rounded to the nearest integer, halves upwards, in
    exact arithmetic: the floor of [100 * count / total + 1/2]. *)
Definition exactPercent (count total : nat) : Z :=
  ((200 * Z.of_nat count + Z.of_nat total) / (2 * Z.of_nat total))%Z.

Definition sf_eqb (x y : spec_float) : bool :=
  match x, y with
  | S754_zero a, S754_zero b => Bool.eqb a b
  | S754_infinity a, S754_infinity b => Bool.eqb a b
  | S754_nan, S754_nan => true
  | S754_finite a m e, S754_finite b m' e' =>
      Bool.eqb a b && Pos.eqb m m' && Z.eqb e e'
  | _, _ => false
  end.

(** The computed percentage is the exact one for every total from 1 to [n]
    and every count up to the total. *)
Definition agreeUpTo (n : nat) : bool :=
  forallb (fun total =>
             forallb (fun count =>
                        sf_eqb (percent count total)
                               (JsNumber.ofZ (exactPercent count total)))
                     (seq 0 (S total)))
          (seq 1 n).

(** Forty ages, twenty-three of them in the first group. *)
Definition fortyAges : list Z := repeat 10%Z 23 ++ repeat 30%Z 17.

(** ** Definitions of the further properties *)

(** A text without a quote. *)
Definition noQuote (s : jsstring) : bool :=
  forallb (fun c => negb (N.eqb c QUOTE)) s.

(** A text without a carriage return or a line feed: one line. *)
Definition lineFree (s : jsstring) : bool :=
  forallb (fun c => negb (N.eqb c CR) && negb (N.eqb c LF)) s.

(** The test of [lines.filter(l => l.trim().length > 0)]. *)
Definition nonBlank (l : jsstring) : bool := 0 <? length (trim l).

(** The three line endings that [parseCSV] normalizes. *)
Definition isEOL (sep : jsstring) : bool :=
  JsString.eqb sep [LF] || JsString.eqb sep [CR] || JsString.eqb sep [CR; LF].

(** A header key without a dot. *)
Definition flatKey (h : jsstring) : bool :=
  forallb (fun c => negb (N.eqb c DOT)) h.

(** The rows that the validator lets through, in the order of the records. *)
Definition validRows (recs : list object) : list InsertRow :=
  flat_map (fun rec => match validateRow rec with
                       | Returns (inl row) => [row]
                       | _ => []
                       end) recs.

(** Every entry of the skip list has an ordinal from 1 on and below the
    ordinal of the record in turn, and the ordinals go up. *)
Definition skipsBelow {Pool : Type} (st : Loop Pool) : Prop :=
  StronglySorted lt (map lineIndex (skips st))
  /\ Forall (fun i => 1 <= i < line st) (map lineIndex (skips st)).

(** ** app.js: the route GET /upload *)

Module App.

Inductive Body : Type :=
  | ErrorBody (error : jsstring) (detail : option jsstring)
  | UploadBody (message : jsstring) (inserted : nat) (skipped : list Skip)
               (totalRows : nat).

(** What [res.status(...).json(...)] sends; [res.json] alone sends 200. *)
Record Response := { status : nat; body : Body }.

(** [Server starting — DB not ready yet. Try again shortly.] *)
Definition notReady : jsstring :=
  lit "Server starting " ++ [8212%N] ++ lit " DB not ready yet. Try again shortly.".

Section Routes.

Variable Pool : Type.
Variable query : Pool -> InsertRow -> Pool * option jsstring.

(** [err.message] for the errors that the engine and [fs] raise. *)
Variable typeErrorMessage : jsstring.
Variable fsErrorMessage : jsstring.

Definition messageOf (e : exn) : jsstring :=
  match e with
  | Error message => message
  | TypeError => typeErrorMessage
  | FsError => fsErrorMessage
  end.

(** The middleware [ensurePool]: [pool] is [undefined] until
    [initializeDB] has resolved. *)
Definition ensurePool (pool : option Pool) (next : Pool -> Response) : Response :=
  match pool with
  | None => {| status := 503; body := ErrorBody notReady None |}
  | Some p => next p
  end.

(** The handler of [app.get('/upload', ensurePool, ...)]; the fields of the
    summary are never [undefined], so [?? 0] and [?? []] let them through. *)
Definition uploadRoute (env : Env) (pool : option Pool) : Response :=
  ensurePool pool
    (fun p =>
       match uploadToDB query env p with
       | Returns (_, result) =>
           {| status := 200;
              body := UploadBody (lit "Upload completed") (insertedCount result)
                                 (skipped result) (totalRows result) |}
       | Throws err =>
           {| status := 500;
              body := ErrorBody (lit "Upload failed") (Some (messageOf err)) |}
       end).

End Routes.

End App.

(** ** db.js: setupDatabase and initializeDB *)

Module Db.

(** The calls that reach the server. *)
Inductive Call : Type :=
  | Connect                                               (* [adminClient.connect()] *)
  | AdminQuery (text : jsstring) (params : list (option jsstring))
  | End_                                                  (* [adminClient.end()] *)
  | PoolQuery (text : jsstring).                          (* [pool.query(...)] *)

(** How the server answers each call; every call is made once at most.
    [None] is success, [rowCount] the number of rows of the SELECT. *)
Record Server := {
  connectFails : option exn;
  checkAnswer : exn + nat;
  createFails : option exn;
  endFails : option exn;
  tableFails : option exn
}.

Definition checkText : jsstring := lit "SELECT 1 FROM pg_database WHERE datname = $1".

(** [`CREATE DATABASE "${dbName}"`]; an unset [PG_DATABASE] prints as
    [undefined]. *)
Definition createText (dbName : option jsstring) : jsstring :=
  lit "CREATE DATABASE " ++ [QUOTE]
  ++ match dbName with Some n => n | None => lit "undefined" end ++ [QUOTE].

Definition createTableText : jsstring :=
  [LF] ++ lit "    CREATE TABLE IF NOT EXISTS public.users ("
  ++ [LF] ++ lit "      id SERIAL PRIMARY KEY,"
  ++ [LF] ++ lit "      name VARCHAR NOT NULL,"
  ++ [LF] ++ lit "      age INT NOT NULL,"
  ++ [LF] ++ lit "      address JSONB,"
  ++ [LF] ++ lit "      additional_info JSONB"
  ++ [LF] ++ lit "    );"
  ++ [LF] ++ lit "  ".

(** The [try] block of [setupDatabase]: the calls made and how it ends. *)
Definition tryBlock (srv : Server) (dbName : option jsstring)
  : list Call * completion unit :=
  match connectFails srv with
  | Some e => ([Connect], Throws e)
  | None =>
      let check := AdminQuery checkText [dbName] in
      match checkAnswer srv with
      | inl e => ([Connect; check], Throws e)
      | inr rowCount =>
          if rowCount =? 0 then
            let create := AdminQuery (createText dbName) [] in
            match createFails srv with
            | Some e => ([Connect; check; create], Throws e)
            | None => ([Connect; check; create], Returns tt)
            end
          else ([Connect; check], Returns tt)
      end
  end.

(** [setupDatabase]: the [catch] block logs and throws the error again, the
    [finally] block awaits [adminClient.end()], whose own failure takes the
    place of the outcome. *)
Definition setupDatabase (srv : Server) (dbName : option jsstring)
  : list Call * completion unit :=
  let (calls, outcome) := tryBlock srv dbName in
  match endFails srv with
  | Some e => (calls ++ [End_], Throws e)
  | None => (calls ++ [End_], outcome)
  end.

(** [setupTable]: the pool is made without a call; the table is created
    through it. *)
Definition setupTable (srv : Server) : list Call * completion unit :=
  match tableFails srv with
  | Some e => ([PoolQuery createTableText], Throws e)
  | None => ([PoolQuery createTableText], Returns tt)
  end.

(** [initializeDB]: [await setupDatabase(); return await setupTable()] *)
Definition initializeDB (srv : Server) (dbName : option jsstring)
  : list Call * completion unit :=
  match setupDatabase srv dbName with
  | (calls, Throws e) => (calls, Throws e)
  | (calls, Returns _) =>
      let (calls', outcome) := setupTable srv in (calls ++ calls', outcome)
  end.

Definition isCreate (dbName : option jsstring) (c : Call) : bool :=
  match c with
  | AdminQuery text _ => JsString.eqb text (createText dbName)
  | _ => false
  end.

Definition isEnd (c : Call) : bool :=
  match c with End_ => true | _ => false end.

Definition isPoolQuery (c : Call) : bool :=
  match c with PoolQuery _ => true | _ => false end.

(** A server on which every call succeeds and the database is not there
    yet. *)
Definition freshServer : Server :=
  {| connectFails := None; checkAnswer := inr 0; createFails := None;
     endFails := None; tableFails := None |}.

End Db.

(** No two quotes side by side. *)
Fixpoint noDoubled (l : jsstring) : bool :=
  match l with
  | [] => true
  | c :: r =>
      match r with
      | d :: _ => negb (N.eqb c QUOTE && N.eqb d QUOTE) && noDoubled r
      | [] => true
      end
  end.

(** A property name of an object somewhere inside a value. *)
Inductive keyOf (k : jsstring) : value -> Prop :=
  | key_here (c : value) (o : object) : In (k, c) o -> keyOf k (VObj o)
  | key_below (k' : jsstring) (c : value) (o : object) :
      In (k', c) o -> keyOf k c -> keyOf k (VObj o).
Arguments key_here : clear implicits.
Arguments key_below : clear implicits.

Definition TOSTRING : jsstring := lit "toString".

(** No segment of a header path is [toString]. *)
Definition noToString (hs : list jsstring) : bool :=
  forallb (forallb (fun k => negb (JsString.eqb k TOSTRING))) (paths hs).

(** ** Exact Numbers, plain keys and the entries of the skip list *)

(** Every integer up to 2^53 in absolute value is a Number exactly. *)
Definition exactBound : Z := 9007199254740992.

(** No segment of the dot path of a key is [__proto__]. *)
Definition plainKey (key : jsstring) : bool :=
  forallb (fun k => negb (JsString.eqb k PROTO)) (split DOT key).

(** A record whose first name is three spaces. *)
Definition spacesRecord : object :=
  [(lit "name", VObj [(lit "firstName", VStr (lit "   "));
                      (lit "lastName", VStr (lit "Prasad"))]);
   (lit "age", VStr (lit "35"))].

(** The entry of the skip list stands for the record at its ordinal: that
    record has failed validation for the reason of the entry, or it has
    passed and the pool has rejected its row with the message of the
    entry. *)
Definition explains {Pool : Type} (query : Pool -> InsertRow -> Pool * option jsstring)
           (recs : list object) (e : Skip) : Prop :=
  exists rec,
    1 <= lineIndex e
    /\ nth_error recs (lineIndex e - 1) = Some rec
    /\ (validateRow rec = Returns (inr (reason e))
        \/ exists row p0 p1 message,
             validateRow rec = Returns (inl row)
             /\ query p0 row = (p1, Some message)
             /\ reason e = insertError message).

Unset Implicit Arguments.

(** * Properties *)

(** ** Strings *)

Lemma eqb_eq (a b : jsstring) : JsString.eqb a b = true <-> a = b.
Proof.
  revert b; induction a as [|x a IH]; destruct b as [|y b]; simpl;
    try (split; (reflexivity || discriminate)).
  rewrite andb_true_iff, N.eqb_eq, IH.
  split; [intros [-> ->]; reflexivity | intros E; inversion E; auto].
Qed.

Lemma eqb_refl (a : jsstring) : JsString.eqb a a = true.
Proof. apply eqb_eq; reflexivity. Qed.

Lemma eqb_neq (a b : jsstring) : JsString.eqb a b = false <-> a <> b.
Proof.
  rewrite <- eqb_eq. destruct (JsString.eqb a b); split; congruence.
Qed.

Lemma eqb_sym_str (a b : jsstring) : JsString.eqb a b = JsString.eqb b a.
Proof.
  destruct (JsString.eqb b a) eqn:E.
  - apply eqb_eq in E; subst; apply eqb_refl.
  - apply eqb_neq. apply eqb_neq in E. congruence.
Qed.

(** ** The tokenizer *)

Lemma scan_quoted (s rest : jsstring) (fields : list jsstring) (field : jsstring) :
  hd_error rest <> Some QUOTE ->
  scan (doubleQuotes s ++ QUOTE :: rest) fields field true
  = scan rest fields (field ++ s) false.
Proof.
  intros Hrest. revert field.
  induction s as [|c s IH]; intros field; simpl.
  - rewrite app_nil_r. destruct rest as [|next rest']; [reflexivity|].
    destruct (N.eqb_spec next QUOTE) as [->|_]; [now elim Hrest|reflexivity].
  - destruct (N.eqb_spec c QUOTE) as [->|Hc]; simpl.
    + rewrite IH, <- app_assoc. reflexivity.
    + apply N.eqb_neq in Hc. rewrite Hc, andb_false_r, IH, <- app_assoc.
      reflexivity.
Qed.

Lemma scan_bare (s rest : jsstring) (fields : list jsstring) (field : jsstring) :
  bare_ok (Bare s) = true ->
  scan (s ++ rest) fields field false = scan rest fields (field ++ s) false.
Proof.
  revert field. induction s as [|c s IH]; intros field H; simpl in *.
  - now rewrite app_nil_r.
  - apply andb_true_iff in H as [Hc Hs]. apply andb_true_iff in Hc as [Hq Hm].
    apply negb_true_iff in Hq, Hm. rewrite Hq, Hm. simpl.
    rewrite IH, <- app_assoc by assumption. reflexivity.
Qed.

Lemma scan_open (l : jsstring) (fields : list jsstring) (field : jsstring) :
  l <> [] ->
  scan (QUOTE :: l) fields field false = scan l fields field true.
Proof. destruct l; [congruence | reflexivity]. Qed.

Lemma scan_comma (l : jsstring) (fields : list jsstring) (field : jsstring) :
  scan (COMMA :: l) fields field false = scan l (fields ++ [field]) [] false.
Proof. reflexivity. Qed.

Lemma scan_cell (c : cell) (rest : jsstring) (fields : list jsstring) :
  bare_ok c = true ->
  hd_error rest <> Some QUOTE ->
  scan (render c ++ rest) fields [] false = scan rest fields (content c) false.
Proof.
  intros Hc Hrest. destruct c as [s|s]; simpl render; simpl content.
  - rewrite <- app_comm_cons, <- app_assoc.
    rewrite scan_open by (destruct (doubleQuotes s); discriminate).
    apply scan_quoted. assumption.
  - rewrite scan_bare by assumption. reflexivity.
Qed.

Lemma csvLine_cons (c c' : cell) (cs : list cell) :
  csvLine (c :: c' :: cs) = render c ++ COMMA :: csvLine (c' :: cs).
Proof. reflexivity. Qed.

Lemma scan_cells (c : cell) (cs : list cell) (fields : list jsstring) :
  forallb bare_ok (c :: cs) = true ->
  scan (csvLine (c :: cs)) fields [] false = fields ++ map content (c :: cs).
Proof.
  revert c fields. induction cs as [|c' cs IH]; intros c fields H.
  - simpl in H. rewrite andb_true_r in H.
    unfold csvLine. simpl map. simpl join.
    rewrite <- (app_nil_r (render c)).
    rewrite scan_cell by (assumption || (simpl; discriminate)). reflexivity.
  - change (forallb bare_ok (c :: c' :: cs))
      with (bare_ok c && forallb bare_ok (c' :: cs)) in H.
    apply andb_true_iff in H as [Hc H].
    rewrite csvLine_cons, scan_cell by (assumption || (simpl; discriminate)).
    rewrite scan_comma, IH by assumption.
    rewrite <- app_assoc. reflexivity.
Qed.

(** C4.  The tokenizer reads back the cells of a line: a quoted cell with
    its quotes doubled gives its content with single quotes, commas inside
    the quotes stay in the field, commas between cells separate, and every
    field is trimmed.  The example line of the specification gives the two
    fields [A, "B"] and [C]. *)
Theorem splitCSVLine_cells :
  (forall (c : cell) (cs : list cell),
      forallb bare_ok (c :: cs) = true ->
      splitCSVLine (csvLine (c :: cs)) = map trim (map content (c :: cs)))
  /\ splitCSVLine exampleLine = [lit "A, " ++ [QUOTE] ++ lit "B" ++ [QUOTE]; lit "C"].
Proof.
  split.
  - intros c cs H. unfold splitCSVLine. rewrite scan_cells by assumption.
    reflexivity.
  - vm_compute. reflexivity.
Qed.

Lemma splitCSVLine_cells_witness :
  forallb bare_ok [Quoted (lit "A, " ++ [QUOTE] ++ lit "B" ++ [QUOTE]); Bare (lit " C ")] = true
  /\ splitCSVLine (csvLine [Quoted (lit "A, " ++ [QUOTE] ++ lit "B" ++ [QUOTE]); Bare (lit " C ")])
     = map trim (map content [Quoted (lit "A, " ++ [QUOTE] ++ lit "B" ++ [QUOTE]); Bare (lit " C ")]).
Proof.
  split; [reflexivity|].
  apply (proj1 splitCSVLine_cells). reflexivity.
Defined.

(** ** Objects and paths *)

Lemma get_assign_same (k : jsstring) (v : value) (o : object) :
  get k (assign k v o) = Some v.
Proof.
  induction o as [|[k' v'] o IH]; simpl.
  - now rewrite eqb_refl.
  - destruct (JsString.eqb k k') eqn:E; simpl; rewrite E; auto.
Qed.

Lemma get_assign_other (k k' : jsstring) (v : value) (o : object) :
  k <> k' -> get k (assign k' v o) = get k o.
Proof.
  intros Hk. apply eqb_neq in Hk.
  induction o as [|[k2 v2] o IH]; simpl.
  - now rewrite Hk.
  - destruct (JsString.eqb k' k2) eqn:E; simpl.
    + apply eqb_eq in E; subst k2. now rewrite Hk.
    + now rewrite IH.
Qed.

Lemma assign_fresh (k : jsstring) (v : value) (o : object) :
  get k o = None -> assign k v o = o ++ [(k, v)].
Proof.
  induction o as [|[k' v'] o IH]; simpl; [reflexivity|].
  destruct (JsString.eqb k k'); [discriminate|].
  intros H. now rewrite IH.
Qed.

Lemma get_app_None (k : jsstring) (o o' : object) :
  get k o = None -> get k (o ++ o') = get k o'.
Proof.
  induction o as [|[k' v'] o IH]; simpl; [reflexivity|].
  destruct (JsString.eqb k k'); [discriminate | exact IH].
Qed.

Lemma split_not_nil (sep : char16) (s : jsstring) : split sep s <> [].
Proof.
  destruct s as [|c r]; simpl; [discriminate|].
  destruct (N.eqb c sep); [discriminate|].
  destruct (split sep r); discriminate.
Qed.

Lemma prefixb_refl (p : list jsstring) : prefixb p p = true.
Proof. induction p as [|k p IH]; simpl; [reflexivity|]. now rewrite eqb_refl. Qed.

Lemma clash_sym (p q : list jsstring) : clash p q = clash q p.
Proof. unfold clash. apply orb_comm. Qed.

Lemma setPath_last (k : jsstring) (v : value) (o : object) :
  setPath [k] v o = assign k v o.
Proof. reflexivity. Qed.

Lemma setPath_cons (k k2 : jsstring) (q : list jsstring) (v : value) (o : object) :
  setPath (k :: k2 :: q) v o
  = assign k (VObj (setPath (k2 :: q) v
                      match get k o with Some (VObj o') => o' | _ => [] end)) o.
Proof. reflexivity. Qed.

Lemma getPath_cons (k : jsstring) (p : list jsstring) (o : object) :
  getPath (k :: p) (VObj o)
  = match get k o with Some c => getPath p c | None => None end.
Proof. reflexivity. Qed.

Lemma getPath_setPath_same (p : list jsstring) (v : value) (o : object) :
  p <> [] -> getPath p (VObj (setPath p v o)) = Some v.
Proof.
  revert o. induction p as [|k p IH]; intros o Hp; [congruence|].
  destruct p as [|k' p].
  - now rewrite setPath_last, getPath_cons, get_assign_same.
  - rewrite setPath_cons, getPath_cons, get_assign_same. apply IH. discriminate.
Qed.

Lemma getPath_setPath_other (p q : list jsstring) (v : value) (o : object) :
  clash p q = false ->
  getPath p (VObj (setPath q v o)) = getPath p (VObj o).
Proof.
  revert p o. induction q as [|k' q IH]; intros p o H.
  - reflexivity.
  - destruct p as [|k p]; [discriminate H|].
    unfold clash in H. cbn [prefixb] in H.
    rewrite (eqb_sym_str k' k) in H.
    destruct (JsString.eqb k k') eqn:E.
    + apply eqb_eq in E; subst k'. cbn [andb] in H.
      destruct q as [|k2 q]; [destruct p; discriminate H|].
      destruct p as [|k3 p]; [discriminate H|].
      rewrite setPath_cons, !getPath_cons, get_assign_same.
      rewrite IH by exact H.
      destruct (get k o) as [[s|o']|]; reflexivity.
    + apply eqb_neq in E.
      destruct q as [|k2 q]; rewrite ?setPath_last, ?setPath_cons, !getPath_cons;
        now rewrite get_assign_other.
Qed.

(** ** Rows *)

Lemma fold_read_other (fields : list jsstring) (p : list jsstring)
      (iks : list (nat * jsstring)) (row : object) :
  (forall ik, In ik iks -> clash p (split DOT (snd ik)) = false) ->
  getPath p
    (VObj (fold_left
             (fun row ik => setNestedProperty row (snd ik) (VStr (fieldAt fields (fst ik))))
             iks row))
  = getPath p (VObj row).
Proof.
  revert row. induction iks as [|ik iks IH]; intros row H; simpl; [reflexivity|].
  rewrite IH by (intros; apply H; now right).
  unfold setNestedProperty. apply getPath_setPath_other. apply H. now left.
Qed.

Lemma fill_read (fields : list jsstring) (hs : list jsstring) :
  prefix_free (paths hs) = true ->
  forall (start : nat) (row : object) (i : nat) (h : jsstring),
    nth_error hs i = Some h ->
    readKey
      (fold_left
         (fun row ik => setNestedProperty row (snd ik) (VStr (fieldAt fields (fst ik))))
         (combine (seq start (length hs)) hs) row) h
    = Some (VStr (fieldAt fields (start + i))).
Proof.
  unfold readKey.
  induction hs as [|h0 hs IH]; intros Hfree start row i h Hi.
  - destruct i; discriminate.
  - simpl in Hfree. apply andb_true_iff in Hfree as [Hhead Hfree].
    cbn [length seq combine fold_left].
    destruct i as [|i]; simpl in Hi.
    + injection Hi as <-. rewrite fold_read_other.
      * unfold setNestedProperty. cbn [fst snd].
        rewrite getPath_setPath_same by apply split_not_nil.
        now rewrite Nat.add_0_r.
      * intros [j k] Hin. apply in_combine_r in Hin. cbn [snd].
        rewrite forallb_forall in Hhead.
        apply negb_true_iff, Hhead. unfold paths. now apply in_map.
    + rewrite (IH Hfree (S start) _ i h Hi). do 3 f_equal. lia.
Qed.

Lemma fillRow_read (hs fields : list jsstring) (i : nat) (h : jsstring) :
  prefix_free (paths hs) = true ->
  nth_error hs i = Some h ->
  readKey (fillRow hs fields []) h = Some (VStr (fieldAt fields i)).
Proof.
  intros Hfree Hi. unfold fillRow.
  now rewrite (fill_read fields hs Hfree 0 [] i h Hi).
Qed.

Lemma fieldAt_pad (n : nat) (fields : list jsstring) (i : nat) :
  fieldAt (padFields n fields) i = fieldAt fields i.
Proof.
  unfold fieldAt, padFields.
  destruct (Nat.lt_ge_cases i (length fields)) as [Hlt|Hge].
  - now rewrite nth_error_app1.
  - rewrite nth_error_app2 by assumption.
    assert (Hnone : nth_error fields i = None) by now apply nth_error_None.
    rewrite Hnone.
    destruct (nth_error (repeat _ _) _) eqn:E;
      [|reflexivity].
    apply nth_error_In, repeat_spec in E. now subst.
Qed.

Lemma fillRow_pad (n : nat) (hs fields : list jsstring) (row : object) :
  fillRow hs (padFields n fields) row = fillRow hs fields row.
Proof.
  unfold fillRow. revert row.
  generalize (combine (seq 0 (length hs)) hs) as iks.
  induction iks as [|ik iks IH]; intros row; simpl; [reflexivity|].
  now rewrite fieldAt_pad, IH.
Qed.

Lemma uint_chars_inj (u u' : Decimal.uint) : uint_chars u = uint_chars u' -> u = u'.
Proof.
  revert u'. induction u; destruct u'; simpl; intros H;
    try discriminate H; try reflexivity;
    injection H as H; f_equal; auto.
Qed.

Lemma decimal_inj (a b : nat) : decimal a = decimal b -> a = b.
Proof.
  unfold decimal. intros H. apply uint_chars_inj in H.
  rewrite <- (Unsigned.of_to a), <- (Unsigned.of_to b). now rewrite H.
Qed.

Lemma fold_assign_fresh (key : nat -> jsstring) (val : nat -> value) (js : list nat) :
  NoDup js ->
  (forall a b, In a js -> In b js -> key a = key b -> a = b) ->
  forall acc : object,
    (forall j, In j js -> get (key j) acc = None) ->
    fold_left (fun extra j => assign (key j) (val j) extra) js acc
    = acc ++ map (fun j => (key j, val j)) js.
Proof.
  induction js as [|j js IH]; intros Hnd Hinj acc Hacc; simpl.
  - now rewrite app_nil_r.
  - inversion Hnd as [|? ? Hnotin Hnd']; subst.
    rewrite assign_fresh by (apply Hacc; now left).
    rewrite IH; [now rewrite <- app_assoc | assumption | |].
    + intros a b Ha Hb. apply Hinj; now right.
    + intros j' Hj'. rewrite get_app_None by (apply Hacc; now right).
      simpl. destruct (JsString.eqb (key j') (key j)) eqn:E; [|reflexivity].
      apply eqb_eq in E. apply Hinj in E; [subst; contradiction | now right | now left].
Qed.

Lemma extrasOf_list (n : nat) (fields : list jsstring) :
  extrasOf n fields = extrasList n fields.
Proof.
  unfold extrasOf, extrasList.
  rewrite (fold_assign_fresh
             (fun j => lit "_extra_" ++ decimal (j - n + 1))
             (fun j => VStr (fieldAt fields j))).
  - reflexivity.
  - apply seq_NoDup.
  - intros a b Ha Hb H. apply in_seq in Ha, Hb.
    apply app_inv_head, decimal_inj in H. lia.
  - reflexivity.
Qed.

Lemma extrasList_values (n : nat) (fields : list jsstring) :
  values (extrasList n fields) = map VStr (skipn n fields).
Proof.
  unfold values, extrasList. rewrite map_map. cbn [snd].
  apply nth_error_ext. intros i.
  rewrite !nth_error_map, nth_error_skipn, nth_error_seq.
  destruct (Nat.ltb_spec i (length fields - n)) as [Hlt|Hge]; cbn [option_map].
  - unfold fieldAt.
    destruct (nth_error fields (n + i)) eqn:E; [reflexivity|].
    apply nth_error_None in E. lia.
  - assert (E : nth_error fields (n + i) = None) by (apply nth_error_None; lia).
    now rewrite E.
Qed.

Lemma buildRow_read (hs fields : list jsstring) (i : nat) (h : jsstring) :
  prefix_free (paths hs) = true ->
  no_extras hs = true \/ length fields <= length hs ->
  nth_error hs i = Some h ->
  readKey (buildRow hs fields) h = Some (VStr (fieldAt fields i)).
Proof.
  intros Hfree Hextra Hi. unfold buildRow.
  destruct (Nat.ltb_spec (length fields) (length hs)) as [Hshort|Hlong].
  - assert (Hlen : length (padFields (length hs) fields) = length hs).
    { unfold padFields. rewrite length_app, repeat_length. lia. }
    rewrite Hlen, Nat.ltb_irrefl, fillRow_pad. now apply fillRow_read.
  - destruct (Nat.ltb_spec (length hs) (length fields)) as [Hmore|_];
      [|now apply fillRow_read].
    destruct Hextra as [Hextra|Hle]; [|lia].
    rewrite extrasOf_list.
    assert (Hpos : (0 <? length (extrasList (length hs) fields)) = true).
    { unfold extrasList. rewrite length_map, length_seq. apply Nat.ltb_lt. lia. }
    rewrite Hpos. unfold readKey.
    assert (Hin : In (split DOT h) (paths hs))
      by (unfold paths; apply in_map; eapply nth_error_In; eassumption).
    unfold no_extras in Hextra. rewrite forallb_forall in Hextra.
    specialize (Hextra _ Hin).
    pose proof (fillRow_read hs fields i h Hfree Hi) as Hread.
    unfold readKey in Hread.
    destruct (split DOT h) as [|k p] eqn:Es; [now apply split_not_nil in Es|].
    rewrite getPath_cons in *. rewrite get_assign_other; [exact Hread|].
    apply eqb_neq. now apply negb_true_iff.
Qed.

Lemma buildRow_extras (hs fields : list jsstring) :
  length hs < length fields ->
  get EXTRAS (buildRow hs fields) = Some (VObj (extrasList (length hs) fields)).
Proof.
  intros Hmore. unfold buildRow.
  destruct (Nat.ltb_spec (length fields) (length hs)) as [Hshort|_]; [lia|].
  destruct (Nat.ltb_spec (length hs) (length fields)) as [_|Hle]; [|lia].
  rewrite extrasOf_list.
  assert (Hpos : (0 <? length (extrasList (length hs) fields)) = true).
  { unfold extrasList. rewrite length_map, length_seq. apply Nat.ltb_lt. lia. }
  rewrite Hpos. apply get_assign_same.
Qed.

(** ** Blank text and the lines of a document *)

Lemma trimStart_nil (s : jsstring) : trimStart s = [] <-> forallb is_ws s = true.
Proof.
  induction s as [|c r IH]; simpl; [tauto|].
  destruct (is_ws c); simpl; [exact IH|].
  split; discriminate.
Qed.

Lemma trimStart_head (s : jsstring) (c : char16) (r : jsstring) :
  trimStart s = c :: r -> is_ws c = false.
Proof.
  induction s as [|d s IH]; simpl; [discriminate|].
  destruct (is_ws d) eqn:E; [exact IH|].
  intros H; injection H as -> _. exact E.
Qed.

Lemma forallb_rev (f : char16 -> bool) (s : jsstring) :
  forallb f (rev s) = true <-> forallb f s = true.
Proof.
  rewrite !forallb_forall. split; intros H x Hx; apply H.
  - now apply in_rev in Hx.
  - now apply in_rev.
Qed.

Lemma trim_nil (s : jsstring) : trim s = [] <-> forallb is_ws s = true.
Proof.
  unfold trim, trimEnd. split.
  - intros H.
    assert (H' : trimStart (rev (trimStart s)) = []).
    { rewrite <- (rev_involutive (trimStart _)), H. reflexivity. }
    apply trimStart_nil in H'. apply (proj1 (forallb_rev _ _)) in H'.
    apply trimStart_nil.
    destruct (trimStart s) as [|c r] eqn:E; [reflexivity|].
    apply trimStart_head in E. cbn [forallb] in H'. now rewrite E in H'.
  - intros H. apply trimStart_nil in H. now rewrite H.
Qed.

Lemma In_replace_crlf (s : jsstring) (x : char16) :
  In x (replace_crlf s) -> In x s.
Proof.
  enough (H : forall s, (In x (replace_crlf s) -> In x s)
                        /\ (forall c, In x (replace_crlf (c :: s)) -> In x (c :: s)))
    by apply H.
  clear s. induction s as [|d s [IH1 IH2]]; split.
  - simpl. tauto.
  - intros c. simpl. tauto.
  - apply IH2.
  - intros c. cbn [replace_crlf].
    destruct (N.eqb c CR && N.eqb d LF) eqn:E.
    + apply andb_true_iff in E as [_ Ed]. apply N.eqb_eq in Ed. subst d.
      intros [<-|H]; [right; now left|].
      right; right. destruct s as [|e s]; [exact H|]. now apply IH1.
    + intros [<-|H]; [now left|]. right. now apply IH2.
Qed.

Lemma In_split (sep : char16) (s piece : jsstring) (x : char16) :
  In piece (split sep s) -> In x piece -> In x s.
Proof.
  revert piece. induction s as [|c r IH]; intros piece; simpl.
  - intros [<-|[]] [].
  - destruct (N.eqb c sep).
    + intros [<-|H] Hx; [destruct Hx|]. right. eapply IH; eassumption.
    + destruct (split sep r) as [|h t] eqn:E.
      * intros [<-|[]] [<-|[]]. now left.
      * intros [<-|H] Hx.
        -- destruct Hx as [<-|Hx]; [now left|]. right. apply (IH h); [now left|exact Hx].
        -- right. apply (IH piece); [now right|exact Hx].
Qed.

Lemma filter_none {A} (f : A -> bool) (l : list A) :
  (forall x, In x l -> f x = false) -> filter f l = [].
Proof.
  induction l as [|a l IH]; intros H; simpl; [reflexivity|].
  rewrite (H a) by now left. apply IH. intros; apply H; now right.
Qed.

Lemma nonBlankLines_blank (data : jsstring) :
  trim data = [] -> nonBlankLines data = [].
Proof.
  intros H. apply trim_nil in H. rewrite forallb_forall in H.
  unfold nonBlankLines. apply filter_none. intros piece Hpiece.
  assert (Hws : trim piece = []).
  { apply trim_nil, forallb_forall. intros x Hx.
    pose proof (In_split _ _ _ _ Hpiece Hx) as Hin.
    unfold replace_cr in Hin. apply in_map_iff in Hin as [y [Hy Hin]].
    apply In_replace_crlf in Hin. specialize (H y Hin).
    destruct (N.eqb y CR); now subst. }
  now rewrite Hws.
Qed.

(** [parseCSV] on the lines it keeps: the first one gives the header, each
    other one a row, and the rows that pass [anyNonEmpty] are the records. *)
Lemma parseCSV_lines (data : jsstring) :
  parseCSV data =
  match nonBlankLines data with
  | [] => {| headers := []; records := [] |}
  | headerLine :: rest =>
      let hs := map trim (splitCSVLine headerLine) in
      {| headers := hs;
         records := filter anyNonEmpty
                      (map (fun raw => buildRow hs (splitCSVLine raw)) rest) |}
  end.
Proof.
  unfold parseCSV. destruct data as [|c data]; [reflexivity|].
  destruct (trim (c :: data)) eqn:E; [now rewrite nonBlankLines_blank|].
  reflexivity.
Qed.

Lemma parseCSV_records (data : jsstring) :
  records (parseCSV data)
  = filter anyNonEmpty
      (map (fun raw => buildRow (headers (parseCSV data)) (splitCSVLine raw))
           (tl (nonBlankLines data))).
Proof.
  rewrite parseCSV_lines. destruct (nonBlankLines data); reflexivity.
Qed.

(** C3, as amended.  The records of [parseCSV] are the rows built from the
    data lines (those that are not empty all through), and when the paths of
    the header keys are free of prefixes and of [__proto__], the row of a
    line with as many fields as the header has keys reads back, key by
    key, as the trimmed fields of the line. *)
Theorem parseCSV_roundtrip (data : jsstring) :
  plain_header (headers (parseCSV data)) = true ->
  prefix_free (paths (headers (parseCSV data))) = true ->
  records (parseCSV data)
  = filter anyNonEmpty
      (map (fun raw => buildRow (headers (parseCSV data)) (splitCSVLine raw))
           (tl (nonBlankLines data)))
  /\ forall raw,
      In raw (tl (nonBlankLines data)) ->
      length (splitCSVLine raw) = length (headers (parseCSV data)) ->
      map (readKey (buildRow (headers (parseCSV data)) (splitCSVLine raw)))
          (headers (parseCSV data))
      = map (fun f => Some (VStr f)) (splitCSVLine raw).
Proof.
  intros _ Hfree. split; [apply parseCSV_records|].
  intros raw _ Hlen.
  set (hs := headers (parseCSV data)) in *.
  set (fields := splitCSVLine raw) in *.
  apply nth_error_ext. intros i. rewrite !nth_error_map.
  destruct (nth_error hs i) as [h|] eqn:Eh; cbn [option_map].
  - rewrite (buildRow_read hs fields i h Hfree (or_intror (Nat.eq_le_incl _ _ Hlen)) Eh).
    unfold fieldAt.
    destruct (nth_error fields i) eqn:Ef; [reflexivity|].
    apply nth_error_None in Ef.
    assert (i < length hs) by (apply nth_error_Some; congruence). lia.
  - apply nth_error_None in Eh.
    assert (Ef : nth_error fields i = None) by (apply nth_error_None; lia).
    now rewrite Ef.
Qed.

Lemma parseCSV_roundtrip_witness :
  plain_header (headers (parseCSV sampleCSV)) = true
  /\ prefix_free (paths (headers (parseCSV sampleCSV))) = true
  /\ map (readKey (buildRow (headers (parseCSV sampleCSV))
                     (splitCSVLine (lit "Ananya,Deshmukh,28,Flat 204,Thane,Maharashtra,female"))))
         (headers (parseCSV sampleCSV))
     = map (fun f => Some (VStr f))
           (splitCSVLine (lit "Ananya,Deshmukh,28,Flat 204,Thane,Maharashtra,female")).
Proof.
  split; [reflexivity|]. split; [reflexivity|].
  apply (proj2 (parseCSV_roundtrip sampleCSV eq_refl eq_refl)).
  - vm_compute. right; now left.
  - reflexivity.
Defined.

(** C3, the statement of the specification fails: the keys [a] and [a.b] are distinct, the
    data line has two fields, and the record reads back an object at [a]
    where the line has [1]. *)
Lemma roundtrip_fails_on_nested_prefix :
  NoDup (headers (parseCSV nestedPrefixCSV))
  /\ headers (parseCSV nestedPrefixCSV) = [lit "a"; lit "a.b"]
  /\ splitCSVLine (lit "1,2") = [lit "1"; lit "2"]
  /\ records (parseCSV nestedPrefixCSV)
     = [[(lit "a", VObj [(lit "b", VStr (lit "2"))])]]
  /\ map (readKey [(lit "a", VObj [(lit "b", VStr (lit "2"))])])
         (headers (parseCSV nestedPrefixCSV))
     <> [Some (VStr (lit "1")); Some (VStr (lit "2"))].
Proof.
  split.
  { vm_compute. repeat constructor; simpl; intuition discriminate. }
  repeat split; try reflexivity.
  vm_compute. discriminate.
Qed.

(** C9, as amended.  Under a header free of [__proto__], a line with more
    fields than the header has keys gets the node [__extras] with the
    surplus fields, keyed [_extra_1], [_extra_2], ... in the order of the
    line, none dropped.  When moreover the paths of the header keys are free
    of prefixes and none starts at [__extras], the built row holds at every
    header key the field of its position, and the empty string where the
    line has no field at that position. *)
Theorem buildRow_padding_and_overflow (hs fields : list jsstring) :
  plain_header hs = true ->
  (length hs < length fields ->
   get EXTRAS (buildRow hs fields) = Some (VObj (extrasList (length hs) fields))
   /\ values (extrasList (length hs) fields) = map VStr (skipn (length hs) fields))
  /\ (prefix_free (paths hs) = true ->
      no_extras hs = true ->
      (forall i h f, nth_error hs i = Some h -> nth_error fields i = Some f ->
                     readKey (buildRow hs fields) h = Some (VStr f))
      /\ (forall i h, nth_error hs i = Some h -> length fields <= i ->
                      readKey (buildRow hs fields) h = Some (VStr []))).
Proof.
  intros _. split.
  - intros Hmore. split; [now apply buildRow_extras | apply extrasList_values].
  - intros Hfree Hextra. split.
    + intros i h f Hh Hf.
      rewrite (buildRow_read hs fields i h Hfree (or_introl Hextra) Hh).
      unfold fieldAt. now rewrite Hf.
    + intros i h Hh Hlen.
      rewrite (buildRow_read hs fields i h Hfree (or_introl Hextra) Hh).
      unfold fieldAt. apply nth_error_None in Hlen. now rewrite Hlen.
Qed.

Lemma buildRow_padding_and_overflow_witness :
  plain_header [lit "name.first"; lit "age"] = true
  /\ prefix_free (paths [lit "name.first"; lit "age"]) = true
  /\ no_extras [lit "name.first"; lit "age"] = true
  /\ readKey (buildRow [lit "name.first"; lit "age"] [lit "Asha"]) (lit "age")
     = Some (VStr [])
  /\ get EXTRAS (buildRow [lit "name.first"; lit "age"] [lit "Asha"; lit "31"; lit "x"; lit "y"])
     = Some (VObj [(lit "_extra_1", VStr (lit "x")); (lit "_extra_2", VStr (lit "y"))]).
Proof.
  pose proof (buildRow_padding_and_overflow [lit "name.first"; lit "age"] [lit "Asha"]
                eq_refl) as [_ Hread].
  destruct (Hread eq_refl eq_refl) as [_ Hpad].
  pose proof (buildRow_padding_and_overflow [lit "name.first"; lit "age"]
                [lit "Asha"; lit "31"; lit "x"; lit "y"] eq_refl) as [Hover _].
  split; [reflexivity|]. split; [reflexivity|]. split; [reflexivity|]. split.
  - apply (Hpad 1 (lit "age")); [reflexivity | simpl; lia].
  - apply Hover. simpl; lia.
Defined.

(** C9, the statement of the specification fails: with the header keys [a] and [a.b] the
    line [1,2,3] builds a row that has lost the field [1] of the key [a]. *)
Lemma overflow_row_loses_prefix_value :
  buildRow [lit "a"; lit "a.b"] [lit "1"; lit "2"; lit "3"]
  = [(lit "a", VObj [(lit "b", VStr (lit "2"))]);
     (lit "__extras", VObj [(lit "_extra_1", VStr (lit "3"))])]
  /\ readKey (buildRow [lit "a"; lit "a.b"] [lit "1"; lit "2"; lit "3"]) (lit "a")
     <> Some (VStr (lit "1")).
Proof. split; [reflexivity|]. vm_compute. discriminate. Qed.

(** ** The validator *)

Lemma validateRow_missing (rec : object) :
  truthy (firstNameOf rec) = false \/ truthy (lastNameOf rec) = false ->
  validateRow rec = Returns (inr missingName).
Proof.
  intros H. unfold validateRow.
  destruct H as [-> | ->]; [reflexivity|]. now rewrite orb_true_r.
Qed.

Lemma validateRow_invalid (rec : object) (raw : jsstring) :
  truthy (firstNameOf rec) = true ->
  truthy (lastNameOf rec) = true ->
  ToString (ageRawOf rec) = Returns raw ->
  parseInt (trim raw) = None ->
  validateRow rec = Returns (inr (invalidAge raw)).
Proof.
  intros Hf Hl Hraw Hnan. unfold validateRow.
  rewrite Hf, Hl, Hraw. cbn [negb orb bind]. now rewrite Hnan.
Qed.

Lemma validateRow_valid (rec : object) (raw first last : jsstring) (age : Z) :
  truthy (firstNameOf rec) = true ->
  truthy (lastNameOf rec) = true ->
  ToString (ageRawOf rec) = Returns raw ->
  parseInt (trim raw) = Some age ->
  ToString (firstNameOf rec) = Returns first ->
  ToString (lastNameOf rec) = Returns last ->
  validateRow rec
  = Returns (inl {| row_name := trim first ++ lit " " ++ trim last;
                    row_age := age;
                    row_address := match get (lit "address") rec with
                                   | Some (VObj o) => o
                                   | _ => []
                                   end;
                    row_additional := restOf rec |}).
Proof.
  intros Hf Hl Hraw Hage Hfirst Hlast. unfold validateRow.
  rewrite Hf, Hl, Hraw. cbn [negb orb bind]. rewrite Hage, Hfirst, Hlast.
  cbn [bind]. destruct (get (lit "address") rec) as [[a|o]|]; reflexivity.
Qed.

(** What a validated row tells about its record. *)
Lemma validateRow_inl (rec : object) (row : InsertRow) :
  validateRow rec = Returns (inl row) ->
  truthy (firstNameOf rec) = true /\ truthy (lastNameOf rec) = true
  /\ exists raw first last,
      ToString (ageRawOf rec) = Returns raw
      /\ parseInt (trim raw) = Some (row_age row)
      /\ ToString (firstNameOf rec) = Returns first
      /\ ToString (lastNameOf rec) = Returns last
      /\ row = {| row_name := trim first ++ lit " " ++ trim last;
                  row_age := row_age row;
                  row_address := match get (lit "address") rec with
                                 | Some (VObj o) => o
                                 | _ => []
                                 end;
                  row_additional := restOf rec |}.
Proof.
  intros H.
  destruct (truthy (firstNameOf rec)) eqn:Hf;
    [|rewrite validateRow_missing in H by (now left); discriminate H].
  destruct (truthy (lastNameOf rec)) eqn:Hl;
    [|rewrite validateRow_missing in H by (now right); discriminate H].
  split; [reflexivity|]. split; [reflexivity|].
  destruct (ToString (ageRawOf rec)) as [raw|e] eqn:Hraw;
    [|unfold validateRow in H; rewrite Hf, Hl, Hraw in H; discriminate H].
  destruct (parseInt (trim raw)) as [age|] eqn:Hage;
    [|rewrite (validateRow_invalid rec raw Hf Hl Hraw Hage) in H; discriminate H].
  destruct (ToString (firstNameOf rec)) as [first|e] eqn:Hfirst;
    [|unfold validateRow in H; rewrite Hf, Hl, Hraw in H; cbn [negb orb bind] in H;
      rewrite Hage, Hfirst in H; discriminate H].
  destruct (ToString (lastNameOf rec)) as [last|e] eqn:Hlast;
    [|unfold validateRow in H; rewrite Hf, Hl, Hraw in H; cbn [negb orb bind] in H;
      rewrite Hage, Hfirst, Hlast in H; discriminate H].
  rewrite (validateRow_valid rec raw first last age Hf Hl Hraw Hage Hfirst Hlast) in H.
  injection H as <-. exists raw, first, last. repeat split; assumption || reflexivity.
Qed.

Lemma get_filter_keys (f : jsstring -> bool) (k : jsstring) (o : object) :
  get k (filter (fun kv => f (fst kv)) o) = if f k then get k o else None.
Proof.
  induction o as [|[k' v] o IH]; simpl.
  - now destruct (f k).
  - destruct (JsString.eqb k k') eqn:E.
    + apply eqb_eq in E; subst k'.
      destruct (f k) eqn:Ef; simpl; [now rewrite eqb_refl|].
      exact IH.
    + destruct (f k'); simpl; [now rewrite E|]; exact IH.
Qed.

(** C2, as amended.  For a record that passes validation the value written
    to [additional_info] is the record without its keys [name], [age] and
    [address]: every other key keeps its value, these three are absent; the
    [address] column gets the [address] subtree, or [{}] when the record has
    none or has a string there. *)
Theorem additional_info_is_rest (rec : object) (row : InsertRow) :
  validateRow rec = Returns (inl row) ->
  row_additional row = restOf rec
  /\ (forall k,
        get k (row_additional row)
        = if JsString.eqb k (lit "name") || JsString.eqb k (lit "age")
             || JsString.eqb k (lit "address")
          then None else get k rec)
  /\ row_address row = match get (lit "address") rec with
                       | Some (VObj o) => o
                       | _ => []
                       end.
Proof.
  intros H. apply validateRow_inl in H as (_ & _ & raw & first & last & _ & _ & _ & _ & ->).
  cbn [row_additional row_address]. split; [reflexivity|]. split; [|reflexivity].
  intros k. unfold restOf.
  rewrite (get_filter_keys
             (fun k => negb (JsString.eqb k (lit "name") || JsString.eqb k (lit "age")
                             || JsString.eqb k (lit "address")))).
  now destruct (JsString.eqb k (lit "name") || JsString.eqb k (lit "age")
                || JsString.eqb k (lit "address")).
Qed.

Lemma additional_info_is_rest_witness :
  validateRow rohit = Returns (inl rohitRow)
  /\ row_additional rohitRow = restOf rohit
  /\ (forall k,
        get k (row_additional rohitRow)
        = if JsString.eqb k (lit "name") || JsString.eqb k (lit "age")
             || JsString.eqb k (lit "address")
          then None else get k rohit)
  /\ row_address rohitRow = match get (lit "address") rohit with
                            | Some (VObj o) => o
                            | _ => []
                            end.
Proof.
  split; [reflexivity|].
  apply (additional_info_is_rest rohit rohitRow). reflexivity.
Defined.

(** C2, the statement of the specification fails: on the first row of the example file the
    store receives an [additional_info] without the [address] subtree, which
    is not the record without [name] and [age]. *)
Lemma additional_info_drops_address :
  map (fun r => get (lit "address") (row_additional r))
      (storedRows (uploadToDB memQuery (envOf sampleCSV) []))
  = [None; None]
  /\ map row_additional (storedRows (uploadToDB memQuery (envOf sampleCSV) []))
     <> map spec_additional (records (parseCSV sampleCSV)).
Proof. split; [reflexivity|]. vm_compute. discriminate. Qed.

(** ** The age *)

Lemma parseInt_leadingInt (s : jsstring) :
  hexPrefixed s = false -> parseInt s = leadingInt s.
Proof.
  unfold hexPrefixed, parseInt, leadingInt.
  destruct (readSign (trimStart s)) as [sign s1]. cbn [snd].
  unfold readRadix.
  destruct s1 as [|c0 [|c1 r]]; try reflexivity.
  destruct ((c0 =? 48)%N && ((c1 =? 120)%N || (c1 =? 88)%N)); [discriminate|reflexivity].
Qed.

Lemma parseInt_leadingHex (s : jsstring) :
  hexPrefixed s = true -> parseInt s = leadingHex s.
Proof.
  unfold hexPrefixed, parseInt, leadingHex.
  destruct (readSign (trimStart s)) as [sign s1]. cbn [snd].
  unfold readRadix.
  destruct s1 as [|c0 [|c1 r]]; try discriminate.
  destruct ((c0 =? 48)%N && ((c1 =? 120)%N || (c1 =? 88)%N)); [reflexivity|discriminate].
Qed.

Lemma rowStep_skip {Pool : Type} (query : Pool -> InsertRow -> Pool * option jsstring)
      (st : Loop Pool) (rec : object) (why : jsstring) :
  validateRow rec = Returns (inr why) ->
  rowStep query st rec = Returns (skipRow st why).
Proof. intros H. unfold rowStep. now rewrite H. Qed.

Lemma rowStep_insert {Pool : Type} (query : Pool -> InsertRow -> Pool * option jsstring)
      (st : Loop Pool) (rec : object) (row : InsertRow) :
  validateRow rec = Returns (inl row) ->
  rowStep query st rec = Returns (settle st (query (pool st) row)).
Proof. intros H. unfold rowStep. now rewrite H. Qed.

(** C5, as amended.  For a record that has passed the name check and whose
    age converts to the string [raw], the age is what [parseInt] reads in
    the trimmed [raw]: the base-10 integer at its start (sign, digits, any
    tail) unless the text after the sign starts with [0x] or [0X], where
    hexadecimal digits are read instead.  When nothing is read the row is
    skipped with the reason [Invalid age: "raw"], the pool is not called and
    the count of inserted rows stays; when an integer is read the row is not
    skipped by the validator. *)
Theorem age_check (rec : object) (raw : jsstring) :
  truthy (firstNameOf rec) = true ->
  truthy (lastNameOf rec) = true ->
  ToString (ageRawOf rec) = Returns raw ->
  (hexPrefixed (trim raw) = false -> parseInt (trim raw) = leadingInt (trim raw))
  /\ (hexPrefixed (trim raw) = true -> parseInt (trim raw) = leadingHex (trim raw))
  /\ (parseInt (trim raw) = None ->
      validateRow rec = Returns (inr (invalidAge raw))
      /\ forall (Pool : Type) (query : Pool -> InsertRow -> Pool * option jsstring)
                (st : Loop Pool),
          rowStep query st rec
          = Returns {| pool := pool st; inserted := inserted st;
                       skips := skips st ++ [{| lineIndex := line st;
                                                reason := invalidAge raw |}];
                       line := S (line st) |})
  /\ (forall age, parseInt (trim raw) = Some age ->
                  forall why, validateRow rec <> Returns (inr why)).
Proof.
  intros Hf Hl Hraw. split; [apply parseInt_leadingInt|].
  split; [apply parseInt_leadingHex|]. split.
  - intros Hnan.
    pose proof (validateRow_invalid rec raw Hf Hl Hraw Hnan) as Hv.
    split; [exact Hv|]. intros Pool query st.
    now rewrite (rowStep_skip query st rec _ Hv).
  - intros age Hage why. unfold validateRow.
    rewrite Hf, Hl, Hraw. cbn [negb orb bind]. rewrite Hage.
    destruct (ToString (firstNameOf rec)); [|discriminate].
    destruct (ToString (lastNameOf rec)); discriminate.
Qed.

Lemma age_check_witness :
  truthy (firstNameOf rohit) = true
  /\ truthy (lastNameOf rohit) = true
  /\ ToString (ageRawOf rohit) = Returns (lit "35")
  /\ parseInt (trim (lit "35")) = leadingInt (trim (lit "35"))
  /\ forall why, validateRow rohit <> Returns (inr why).
Proof.
  destruct (age_check rohit (lit "35") eq_refl eq_refl eq_refl) as [Hdec [_ [_ Hok]]].
  split; [reflexivity|]. split; [reflexivity|]. split; [reflexivity|]. split.
  - apply Hdec. reflexivity.
  - apply (Hok 35%Z). reflexivity.
Defined.

(** C5, the statement of the specification fails: the age [0x] starts with the base-10
    integer 0 and is refused, and a row without first name whose age is
    [abc] is skipped for its name, not for its age. *)
Lemma base10_prefix_reading_fails :
  leadingInt (trim (lit "0x")) = Some 0%Z
  /\ summaryOf (uploadToDB memQuery (envOf (oneRowCSV "Rohit,Prasad,0x")) [])
     = Some {| insertedCount := 0;
               skipped := [{| lineIndex := 1; reason := invalidAge (lit "0x") |}];
               totalRows := 1 |}
  /\ summaryOf (uploadToDB memQuery (envOf (oneRowCSV ",Prasad,abc")) [])
     = Some {| insertedCount := 0;
               skipped := [{| lineIndex := 1; reason := missingName |}];
               totalRows := 1 |}
  /\ missingName <> invalidAge (lit "abc").
Proof. repeat split; try reflexivity. vm_compute. discriminate. Qed.

(** What [parseInt] makes of some ages. *)
Example parseInt_samples :
  parseInt (lit "35") = Some 35%Z
  /\ parseInt (lit "35abc") = Some 35%Z
  /\ parseInt (lit "abc") = None
  /\ parseInt [] = None
  /\ parseInt (lit "-5") = Some (-5)%Z
  /\ parseInt (lit "+7.9") = Some 7%Z
  /\ parseInt (lit "0x1A") = Some 26%Z
  /\ parseInt (lit "0x") = None
  /\ parseInt (lit "-0x") = None
  /\ parseInt (lit "-0") = Some 0%Z.
Proof. repeat split; reflexivity. Qed.

(** ** The leaves of a parsed record are trimmed fields *)

Lemma trimStart_snoc (l : jsstring) (c : char16) :
  is_ws c = false -> trimStart (l ++ [c]) = trimStart l ++ [c].
Proof.
  intros Hc. induction l as [|d l IH]; cbn [app trimStart].
  - now rewrite Hc.
  - destruct (is_ws d); [exact IH | reflexivity].
Qed.

Lemma trimEnd_cons (c : char16) (s : jsstring) :
  is_ws c = false -> trimEnd (c :: s) = c :: trimEnd s.
Proof.
  intros Hc. unfold trimEnd. cbn [rev].
  now rewrite trimStart_snoc, rev_app_distr.
Qed.

Lemma trim_head (s : jsstring) (c : char16) (r : jsstring) :
  trim s = c :: r -> is_ws c = false.
Proof.
  unfold trim. destruct (trimStart s) as [|d y] eqn:E; [discriminate|].
  apply trimStart_head in E. rewrite trimEnd_cons by exact E.
  now intros H; injection H as <- _.
Qed.

Lemma trim_trim_nil (s : jsstring) : trim (trim s) = [] -> trim s = [].
Proof.
  intros H. apply trim_nil in H.
  destruct (trim s) as [|c r] eqn:E; [reflexivity|].
  apply trim_head in E. cbn [forallb] in H. now rewrite E in H.
Qed.

Lemma get_In (k : jsstring) (c : value) (o : object) :
  get k o = Some c -> In (k, c) o.
Proof.
  induction o as [|[k' v] o IH]; simpl; [discriminate|].
  destruct (JsString.eqb k k') eqn:E.
  - apply eqb_eq in E; subst. intros H; injection H as <-. now left.
  - intros H. right. now apply IH.
Qed.

Lemma In_assign (k k' : jsstring) (v c : value) (o : object) :
  In (k', c) (assign k v o) -> c = v \/ In (k', c) o.
Proof.
  induction o as [|[k2 v2] o IH]; simpl.
  - intros [H|[]]. injection H as _ <-. now left.
  - destruct (JsString.eqb k k2).
    + intros [H|H]; [injection H as _ <-; now left | right; now right].
    + intros [H|H]; [right; now left|].
      destruct (IH H) as [->|Hin]; [now left | right; now right].
Qed.

Lemma leaf_assign (s k : jsstring) (v : value) (o : object) :
  leafOf s (VObj (assign k v o)) -> leafOf s v \/ leafOf s (VObj o).
Proof.
  intros H. inversion H as [|k' c o' Hin Hc]; subst.
  destruct (In_assign _ _ _ _ _ Hin) as [->|Hin']; [now left|].
  right. now apply (leaf_in s k' c o).
Qed.

Lemma leaf_empty (s : jsstring) : ~ leafOf s (VObj []).
Proof. intros H. inversion H as [|k c o Hin _]; subst. destruct Hin. Qed.

Lemma leaf_setPath (s : jsstring) (v : value) (q : list jsstring) (o : object) :
  leafOf s (VObj (setPath q v o)) -> leafOf s v \/ leafOf s (VObj o).
Proof.
  revert o. induction q as [|k q IH]; intros o H; [now right|].
  destruct q as [|k2 q].
  - rewrite setPath_last in H. now apply leaf_assign in H.
  - rewrite setPath_cons in H. apply leaf_assign in H as [H|H]; [|now right].
    apply IH in H as [H|H]; [now left|]. right.
    destruct (get k o) as [[t|o']|] eqn:E; try (now apply leaf_empty in H).
    apply get_In in E. now apply (leaf_in s k (VObj o') o).
Qed.

Lemma leaf_fill (s : jsstring) (fields : list jsstring)
      (iks : list (nat * jsstring)) (row : object) :
  leafOf s
    (VObj (fold_left
             (fun row ik => setNestedProperty row (snd ik) (VStr (fieldAt fields (fst ik))))
             iks row)) ->
  (exists i, s = fieldAt fields i) \/ leafOf s (VObj row).
Proof.
  revert row. induction iks as [|ik iks IH]; intros row H; [now right|].
  cbn [fold_left] in H. apply IH in H as [H|H]; [now left|].
  unfold setNestedProperty in H. apply leaf_setPath in H as [H|H]; [|now right].
  left. inversion H; subst. now exists (fst ik).
Qed.

Lemma leaf_extras (s : jsstring) (n : nat) (fields : list jsstring) :
  leafOf s (VObj (extrasList n fields)) -> exists i, s = fieldAt fields i.
Proof.
  intros H. inversion H as [|k c o Hin Hc]; subst. unfold extrasList in Hin.
  apply in_map_iff in Hin as [j [Hj _]]. injection Hj as _ <-.
  inversion Hc; subst. now exists j.
Qed.

Lemma leaf_row (s : jsstring) (hs fields : list jsstring) :
  leafOf s
    (VObj (if length hs <? length fields
           then let extra := extrasOf (length hs) fields in
                if 0 <? length extra
                then assign (lit "__extras") (VObj extra) (fillRow hs fields [])
                else fillRow hs fields []
           else fillRow hs fields [])) ->
  exists i, s = fieldAt fields i.
Proof.
  assert (Hfill : leafOf s (VObj (fillRow hs fields [])) -> exists i, s = fieldAt fields i).
  { intros H. unfold fillRow in H.
    apply leaf_fill in H as [H|H]; [exact H | now apply leaf_empty in H]. }
  destruct (length hs <? length fields); [|exact Hfill].
  cbv zeta. rewrite extrasOf_list.
  destruct (0 <? length (extrasList (length hs) fields)); [|exact Hfill].
  intros H. apply leaf_assign in H as [H|H]; [|now apply Hfill].
  now apply leaf_extras in H.
Qed.

Lemma leaf_buildRow (s : jsstring) (hs fields : list jsstring) :
  leafOf s (VObj (buildRow hs fields)) -> exists i, s = fieldAt fields i.
Proof.
  unfold buildRow. destruct (length fields <? length hs).
  - intros H. apply leaf_row in H as [i ->]. exists i. apply fieldAt_pad.
  - apply leaf_row.
Qed.

Lemma leaf_record (data : jsstring) (rec : object) (s : jsstring) :
  In rec (records (parseCSV data)) ->
  leafOf s (VObj rec) ->
  exists x, s = trim x.
Proof.
  rewrite parseCSV_records. intros Hin Hleaf.
  apply filter_In in Hin as [Hin _].
  apply in_map_iff in Hin as [raw [<- _]].
  apply leaf_buildRow in Hleaf as [i ->].
  unfold fieldAt.
  destruct (nth_error (splitCSVLine raw) i) as [f|] eqn:E; [|now exists []].
  apply nth_error_In in E. unfold splitCSVLine in E.
  apply in_map_iff in E as [x [<- _]]. now exists x.
Qed.

Lemma blank_truthy (data : jsstring) (rec : object) (key : jsstring) :
  In rec (records (parseCSV data)) ->
  blank (optGet (get (lit "name") rec) key)
  = negb (truthy (orEmpty (optGet (get (lit "name") rec) key))).
Proof.
  intros Hin.
  destruct (get (lit "name") rec) as [[t|o]|] eqn:Ename; try reflexivity.
  cbn [optGet].
  destruct (get key o) as [[s|o']|] eqn:Ekey; cbn [blank orEmpty ToString].
  - assert (Hleaf : leafOf s (VObj rec)).
    { apply get_In in Ename, Ekey.
      apply (leaf_in s _ _ _ Ename). apply (leaf_in s _ _ _ Ekey). apply leaf_here. }
    destruct (leaf_record data rec s Hin Hleaf) as [x ->].
    destruct (trim x) as [|c r] eqn:E; [reflexivity|].
    cbn [truthy negb]. apply Nat.eqb_neq. intros Hlen.
    apply length_zero_iff_nil in Hlen. rewrite <- E in Hlen.
    apply trim_trim_nil in Hlen. congruence.
  - destruct (has (lit "toString") o'); reflexivity.
  - reflexivity.
Qed.




(** Scenario C of the specification, and a first name of spaces only in the
    file: both rows are skipped for their name. *)
Example scenario_missing_first_name :
  summaryOf (uploadToDB memQuery (envOf (oneRowCSV ",Prasad,35")) [])
  = Some {| insertedCount := 0;
            skipped := [{| lineIndex := 1; reason := missingName |}];
            totalRows := 1 |}
  /\ summaryOf (uploadToDB memQuery (envOf (oneRowCSV "   ,Prasad,35")) [])
     = Some {| insertedCount := 0;
               skipped := [{| lineIndex := 1; reason := missingName |}];
               totalRows := 1 |}.
Proof. split; reflexivity. Qed.

(** ** Negative ages *)

Lemma valueOf_pos (radix : N) (ds : list N) (acc : N) :
  (0 < radix)%N ->
  (0 < acc)%N \/ (exists d, In d ds /\ d <> 0%N) ->
  (0 < fold_left (fun acc d => (acc * radix + d)%N) ds acc)%N.
Proof.
  intros Hr. revert acc. induction ds as [|d ds IH]; intros acc H; simpl.
  - destruct H as [H|[d [[] _]]]. exact H.
  - apply IH. destruct H as [H|[d' [[<-|Hin] Hd]]].
    + left. nia.
    + left. lia.
    + right. now exists d'.
Qed.

Lemma countAge_young (groups : Groups nat) (age : Z) :
  (age <= 20)%Z ->
  countAge groups age
  = {| lt20 := S (lt20 groups); from20to40 := from20to40 groups;
       from40to60 := from40to60 groups; gt60 := gt60 groups |}.
Proof.
  intros H. unfold countAge. apply Z.leb_le in H. now rewrite H.
Qed.

(** C10, as amended.  For a record that has passed the name check, whose
    names convert to strings and whose trimmed age is a minus sign followed
    by decimal digits that do not begin with [0x] or [0X] and whose value is
    at most 2^53 (so that the Number is exact), validation
    succeeds with the age minus the value of the digits: at most zero, and
    negative as soon as one of the digits is not 0.  The row is handed to
    the pool, and the report counts its age, as every age up to 20 and so
    every negative one, in the group [<20]. *)
Theorem negative_age (rec : object) (s t first last : jsstring) :
  truthy (firstNameOf rec) = true ->
  truthy (lastNameOf rec) = true ->
  ToString (firstNameOf rec) = Returns first ->
  ToString (lastNameOf rec) = Returns last ->
  ageRawOf rec = VStr s ->
  trim s = 45%N :: t ->
  digitsPrefix 10 t <> [] ->
  hexPrefixed (trim s) = false ->
  (Z.of_N (valueOf 10 (digitsPrefix 10 t)) <= exactBound)%Z ->
  exists row,
    validateRow rec = Returns (inl row)
    /\ row_age row = (- Z.of_N (valueOf 10 (digitsPrefix 10 t)))%Z
    /\ (row_age row <= 0)%Z
    /\ ((exists d, In d (digitsPrefix 10 t) /\ d <> 0%N) -> (row_age row < 0)%Z)
    /\ (forall (Pool : Type) (query : Pool -> InsertRow -> Pool * option jsstring)
               (st : Loop Pool),
           rowStep query st rec = Returns (settle st (query (pool st) row)))
    /\ (forall groups,
           countAge groups (row_age row)
           = {| lt20 := S (lt20 groups); from20to40 := from20to40 groups;
                from40to60 := from40to60 groups; gt60 := gt60 groups |}).
Proof.
  intros Hf Hl Hfirst Hlast Hraw Htrim Hdigits Hhex _.
  assert (Hage : parseInt (trim s)
                 = Some (- Z.of_N (valueOf 10 (digitsPrefix 10 t)))%Z).
  { rewrite parseInt_leadingInt by exact Hhex. rewrite Htrim.
    unfold leadingInt. cbn [trimStart]. change (is_ws 45%N) with false.
    cbn [readSign]. change (45 =? 45)%N with true. cbv iota.
    destruct (digitsPrefix 10 t) as [|d ds]; [congruence|].
    apply f_equal. lia. }
  assert (Hstr : ToString (ageRawOf rec) = Returns s) by now rewrite Hraw.
  eexists. split; [exact (validateRow_valid rec s first last _ Hf Hl Hstr Hage Hfirst Hlast)|].
  cbn [row_age]. split; [reflexivity|]. split; [lia|]. split; [|split].
  - intros Hd. unfold valueOf.
    assert (0 < fold_left (fun acc d => acc * 10 + d) (digitsPrefix 10 t) 0)%N
      by (apply valueOf_pos; [lia | now right]).
    lia.
  - intros Pool query st. apply rowStep_insert.
    exact (validateRow_valid rec s first last _ Hf Hl Hstr Hage Hfirst Hlast).
  - intros groups. apply countAge_young. lia.
Qed.

Lemma negative_age_witness :
  (Z.of_N (valueOf 10 (digitsPrefix 10 (lit "5"))) <= exactBound)%Z
  /\ exists row,
    validateRow [(lit "name", VObj [(lit "firstName", VStr (lit "Rohit"));
                                    (lit "lastName", VStr (lit "Prasad"))]);
                 (lit "age", VStr (lit "-5"))]
    = Returns (inl row)
    /\ row_age row = (-5)%Z.
Proof.
  destruct (negative_age
              [(lit "name", VObj [(lit "firstName", VStr (lit "Rohit"));
                                  (lit "lastName", VStr (lit "Prasad"))]);
               (lit "age", VStr (lit "-5"))]
              (lit "-5") (lit "5") (lit "Rohit") (lit "Prasad")
              eq_refl eq_refl eq_refl eq_refl eq_refl eq_refl
              ltac:(discriminate) eq_refl ltac:(vm_compute; discriminate))
    as [row [Hrow [Hage _]]].
  split; [vm_compute; discriminate|].
  exists row. split; [exact Hrow | exact Hage].
Defined.

(** C10, the statement of the specification fails: [-0x] is a minus sign followed by the
    decimal digit 0 and is refused, and [-0] is accepted with an age that is
    not negative. *)
Lemma minus_sign_age_not_always_negative :
  digitsPrefix 10 (lit "0x") = [0%N]
  /\ summaryOf (uploadToDB memQuery (envOf (oneRowCSV "Rohit,Prasad,-0x")) [])
     = Some {| insertedCount := 0;
               skipped := [{| lineIndex := 1; reason := invalidAge (lit "-0x") |}];
               totalRows := 1 |}
  /\ map row_age (storedRows (uploadToDB memQuery (envOf (oneRowCSV "Rohit,Prasad,-0")) []))
     = [0%Z].
Proof. repeat split; reflexivity. Qed.

(** ** The run as a whole *)

Section Run.

Context {Pool : Type} (query : Pool -> InsertRow -> Pool * option jsstring).

Lemma rowStep_counts (st st' : Loop Pool) (rec : object) :
  rowStep query st rec = Returns st' ->
  (inserted st' = S (inserted st) /\ skips st' = skips st
   \/ inserted st' = inserted st /\ exists e, skips st' = skips st ++ [e])
  /\ line st' = S (line st).
Proof.
  unfold rowStep. destruct (validateRow rec) as [[row|why]|e]; cbn [bind];
    [| |discriminate]; intros H; injection H as <-.
  - destruct (query (pool st) row) as [p' [message|]]; cbn [settle inserted skips line].
    + split; [right; split; [reflexivity|eexists; reflexivity] | reflexivity].
    + split; [left; split; reflexivity | reflexivity].
  - cbn [skipRow inserted skips line].
    split; [right; split; [reflexivity|eexists; reflexivity] | reflexivity].
Qed.

Lemma forOf_counts (l : list object) (st st' : Loop Pool) :
  forOf (rowStep query) l st = Returns st' ->
  inserted st' + length (skips st') = inserted st + length (skips st) + length l.
Proof.
  revert st. induction l as [|rec l IH]; intros st; cbn [forOf].
  - intros H; injection H as <-. cbn [length]. lia.
  - destruct (rowStep query st rec) as [st1|e] eqn:E; cbn [bind]; [|discriminate].
    intros H. apply IH in H. apply rowStep_counts in E as [[[Hi Hs]|[Hi [e Hs]]] _];
      rewrite H, Hi, Hs, ?length_app; cbn [length]; lia.
Qed.

Lemma coercible_validates (rec : object) :
  coercible rec = true -> exists r, validateRow rec = Returns r.
Proof.
  unfold coercible. intros H.
  apply andb_true_iff in H as [H Ha]. apply andb_true_iff in H as [Hf Hl].
  assert (Hstr : forall v, coercibleValue v = true -> exists s, ToString v = Returns s).
  { intros [s|o] Hv; cbn in *; [now exists s|].
    apply negb_true_iff in Hv. rewrite Hv. now eexists. }
  destruct (Hstr _ Hf) as [first Hfirst], (Hstr _ Hl) as [last Hlast],
           (Hstr _ Ha) as [raw Hraw].
  unfold validateRow.
  destruct (negb (truthy (firstNameOf rec)) || negb (truthy (lastNameOf rec)));
    [now eexists|].
  rewrite Hraw. cbn [bind]. destruct (parseInt (trim raw)).
  - rewrite Hfirst, Hlast. now eexists.
  - now eexists.
Qed.

Lemma forOf_returns (l : list object) (st : Loop Pool) :
  forallb coercible l = true ->
  exists st', forOf (rowStep query) l st = Returns st'.
Proof.
  revert st. induction l as [|rec l IH]; intros st H; cbn [forOf].
  - now eexists.
  - cbn [forallb] in H. apply andb_true_iff in H as [Hrec H].
    destruct (coercible_validates rec Hrec) as [[row|why] Hv]; unfold rowStep;
      rewrite Hv; cbn [bind]; apply IH; exact H.
Qed.

End Run.

Lemma scan_not_nil (l : jsstring) (fields : list jsstring) (field : jsstring) (q : bool) :
  scan l fields field q <> [].
Proof.
  enough (H : forall l,
             (forall fields field q, scan l fields field q <> [])
             /\ (forall c fields field q, scan (c :: l) fields field q <> []))
    by apply H.
  clear. induction l as [|d l [IH1 IH2]]; split.
  - intros fields field q. cbn. now destruct fields.
  - intros c fields field q. cbn.
    destruct (N.eqb c QUOTE); [|destruct (N.eqb c COMMA && negb q)];
      cbn; (destruct fields; discriminate) || (destruct (fields ++ [field]); discriminate).
  - apply IH2.
  - intros c fields field q. cbn [scan].
    destruct (N.eqb c QUOTE).
    + destruct (q && N.eqb d QUOTE); [apply IH1 | apply IH2].
    + destruct (N.eqb c COMMA && negb q); apply IH2.
Qed.

Lemma headers_nil_records (data : jsstring) :
  headers (parseCSV data) = [] -> records (parseCSV data) = [].
Proof.
  rewrite parseCSV_lines. destruct (nonBlankLines data) as [|h rest]; [reflexivity|].
  cbn [headers]. unfold splitCSVLine. intros H.
  apply map_eq_nil, map_eq_nil in H. now apply scan_not_nil in H.
Qed.

(** C1.  A run that returns a summary has counted every record once:
    [insertedCount + skipped.length = totalRows], where [totalRows] is the
    number of parsed records when the loop has run; and a turn of the loop
    either adds one to the count of inserted rows and leaves the skip list,
    or appends one entry to the skip list and leaves the count. *)
Theorem summary_counts {Pool : Type} (query : Pool -> InsertRow -> Pool * option jsstring)
        (env : Env) (p p' : Pool) (s : Summary) :
  uploadToDB query env p = Returns (p', s) ->
  insertedCount s + length (skipped s) = totalRows s
  /\ (forall path data,
        CSV_FILE_PATH env = Some path -> existsSync env path = true ->
        readFileSync env path = Some data ->
        totalRows s = length (records (parseCSV data)))
  /\ (forall (st st' : Loop Pool) (rec : object),
        rowStep query st rec = Returns st' ->
        inserted st' = S (inserted st) /\ skips st' = skips st
        \/ inserted st' = inserted st /\ exists e, skips st' = skips st ++ [e]).
Proof.
  intros H. split; [|split];
    [| |intros st st' rec Hstep; now apply rowStep_counts in Hstep].
  - unfold uploadToDB in H.
    destruct (CSV_FILE_PATH env) as [[|c path]|]; try discriminate H.
    destruct (negb (existsSync env (c :: path))).
    { injection H as _ <-. reflexivity. }
    destruct (readFileSync env (c :: path)) as [data|]; [|discriminate H].
    cbv zeta in H.
    destruct ((length (headers (parseCSV data)) =? 0)
              || (length (records (parseCSV data)) =? 0)) eqn:E.
    + injection H as _ <-. cbn [insertedCount skipped totalRows length].
      apply orb_true_iff in E as [E|E]; apply Nat.eqb_eq in E.
      * apply length_zero_iff_nil, headers_nil_records in E. now rewrite E.
      * now rewrite E.
    + destruct (forOf (rowStep query) (records (parseCSV data)) _) as [st|e] eqn:Eloop;
        cbn [bind] in H; [|discriminate H].
      injection H as _ <-. cbn [insertedCount skipped totalRows].
      apply forOf_counts in Eloop. cbn [inserted skips length] in Eloop. lia.
  - intros path data Hpath Hex Hread. unfold uploadToDB in H.
    rewrite Hpath in H. destruct path as [|c path]; [discriminate H|].
    rewrite Hex, Hread in H. cbn [negb] in H. cbv zeta in H.
    destruct ((length (headers (parseCSV data)) =? 0)
              || (length (records (parseCSV data)) =? 0)).
    + now injection H as _ <-.
    + destruct (forOf (rowStep query) (records (parseCSV data)) _) as [st|e];
        cbn [bind] in H; [|discriminate H].
      now injection H as _ <-.
Qed.

Lemma summary_counts_witness :
  uploadToDB intQuery (envOf mixedCSV) [] = Returns mixedOutcome
  /\ insertedCount (snd mixedOutcome) + length (skipped (snd mixedOutcome))
     = totalRows (snd mixedOutcome).
Proof.
  split; [reflexivity|].
  apply (proj1 (summary_counts intQuery (envOf mixedCSV) []
                  (fst mixedOutcome) (snd mixedOutcome) eq_refl)).
Defined.

(** The summary of the mixed file: one row inserted, three skipped, each for
    its own reason. *)
Example mixed_summary :
  snd mixedOutcome
  = {| insertedCount := 1;
       skipped :=
         [{| lineIndex := 2; reason := missingName |};
          {| lineIndex := 3; reason := invalidAge (lit "abc") |};
          {| lineIndex := 4;
             reason := insertError (lit "value out of range for type integer") |}];
       totalRows := 4 |}
  /\ map row_name (fst mixedOutcome) = [lit "Rohit Prasad"].
Proof. split; reflexivity. Qed.

(** C8, as amended.  The entry point throws when no file path is
    configured, and lets the failure of reading an existing file through.
    When the file does not exist it returns the empty summary; when the file
    is read, no header key has a segment [__proto__] and the names and the
    age of every record convert to strings, it
    returns a summary over all the records, whatever the validator and the
    pool answer row by row; a rejected insertion is recorded as
    [DB insert error: <message>] and the loop goes on. *)
Theorem upload_outcomes {Pool : Type} (query : Pool -> InsertRow -> Pool * option jsstring)
        (env : Env) (p : Pool) :
  (CSV_FILE_PATH env = None \/ CSV_FILE_PATH env = Some [] ->
   uploadToDB query env p = Throws (Error notSet))
  /\ (forall path, CSV_FILE_PATH env = Some path -> path <> [] ->
        (existsSync env path = false ->
         uploadToDB query env p
         = Returns (p, {| insertedCount := 0; skipped := []; totalRows := 0 |}))
        /\ (existsSync env path = true -> readFileSync env path = None ->
            uploadToDB query env p = Throws FsError)
        /\ (forall data,
              existsSync env path = true -> readFileSync env path = Some data ->
              plain_header (headers (parseCSV data)) = true ->
              forallb coercible (records (parseCSV data)) = true ->
              exists p' s,
                uploadToDB query env p = Returns (p', s)
                /\ totalRows s = length (records (parseCSV data))
                /\ insertedCount s + length (skipped s) = totalRows s))
  /\ (forall (st : Loop Pool) (rec : object) (why : jsstring),
        validateRow rec = Returns (inr why) ->
        rowStep query st rec
        = Returns {| pool := pool st; inserted := inserted st;
                     skips := skips st ++ [{| lineIndex := line st; reason := why |}];
                     line := S (line st) |})
  /\ (forall (st : Loop Pool) (rec : object) (row : InsertRow) (p' : Pool)
             (message : jsstring),
        validateRow rec = Returns (inl row) ->
        query (pool st) row = (p', Some message) ->
        rowStep query st rec
        = Returns {| pool := p'; inserted := inserted st;
                     skips := skips st
                              ++ [{| lineIndex := line st;
                                     reason := lit "DB insert error: " ++ message |}];
                     line := S (line st) |}).
Proof.
  split; [|split; [|split]].
  - unfold uploadToDB. now intros [-> | ->].
  - intros path Hpath Hne. unfold uploadToDB. rewrite Hpath.
    destruct path as [|c path]; [congruence|]. split; [|split].
    + now intros ->.
    + now intros -> ->.
    + intros data -> -> _ Hall. cbn [negb]. cbv zeta.
      destruct ((length (headers (parseCSV data)) =? 0)
                || (length (records (parseCSV data)) =? 0)) eqn:E.
      * eexists _, _. split; [reflexivity|]. cbn [totalRows insertedCount skipped length].
        split; [reflexivity|].
        apply orb_true_iff in E as [E|E]; apply Nat.eqb_eq in E.
        -- apply length_zero_iff_nil, headers_nil_records in E. now rewrite E.
        -- now rewrite E.
      * destruct (forOf_returns query (records (parseCSV data))
                    {| pool := p; inserted := 0; skips := []; line := 1 |} Hall)
          as [st Hst].
        rewrite Hst. cbn [bind]. eexists _, _. split; [reflexivity|].
        cbn [totalRows insertedCount skipped]. split; [reflexivity|].
        apply forOf_counts in Hst. cbn [inserted skips length] in Hst. lia.
  - intros st rec why Hwhy. now rewrite (rowStep_skip query st rec why Hwhy).
  - intros st rec row p' message Hrow Hq.
    rewrite (rowStep_insert query st rec row Hrow), Hq. reflexivity.
Qed.

Lemma upload_outcomes_witness :
  CSV_FILE_PATH (envOf mixedCSV) = Some usersCsv
  /\ usersCsv <> []
  /\ existsSync (envOf mixedCSV) usersCsv = true
  /\ readFileSync (envOf mixedCSV) usersCsv = Some mixedCSV
  /\ plain_header (headers (parseCSV mixedCSV)) = true
  /\ forallb coercible (records (parseCSV mixedCSV)) = true
  /\ exists p' s,
      uploadToDB intQuery (envOf mixedCSV) [] = Returns (p', s)
      /\ totalRows s = length (records (parseCSV mixedCSV))
      /\ insertedCount s + length (skipped s) = totalRows s.
Proof.
  split; [reflexivity|]. split; [discriminate|]. split; [reflexivity|].
  split; [reflexivity|]. split; [reflexivity|]. split; [reflexivity|].
  destruct (upload_outcomes intQuery (envOf mixedCSV) []) as [_ [H _]].
  destruct (H usersCsv eq_refl ltac:(discriminate)) as [_ [_ Hread]].
  exact (Hread mixedCSV eq_refl eq_refl eq_refl eq_refl).
Defined.

(** C8, the statement of the specification fails: with the path configured, the run throws
    when the file exists and cannot be read, and when the header makes of
    the first name an object with a property [toString]. *)
Lemma upload_throws_beyond_configuration :
  uploadToDB memQuery unreadableEnv [] = Throws FsError
  /\ uploadToDB memQuery (envOf toStringCSV) [] = Throws TypeError.
Proof. split; reflexivity. Qed.

(** ** The report *)

Lemma sf_eqb_eq (x y : spec_float) : sf_eqb x y = true -> x = y.
Proof.
  destruct x, y; cbn; try discriminate; intros H.
  - apply Bool.eqb_prop in H. now subst.
  - apply Bool.eqb_prop in H. now subst.
  - reflexivity.
  - apply andb_true_iff in H as [H He]. apply andb_true_iff in H as [Hs Hm].
    apply Bool.eqb_prop in Hs. apply Pos.eqb_eq in Hm. apply Z.eqb_eq in He.
    now subst.
Qed.

Lemma percent_exact_below_40 (count total : nat) :
  0 < total < 40 -> count <= total ->
  percent count total = JsNumber.ofZ (exactPercent count total).
Proof.
  intros Ht Hc.
  assert (H : agreeUpTo 39 = true) by (vm_compute; reflexivity).
  unfold agreeUpTo in H. rewrite forallb_forall in H.
  specialize (H total). rewrite forallb_forall in H.
  apply sf_eqb_eq, H; apply in_seq; lia.
Qed.

Lemma countAges_from (ages : list Z) (g : Groups nat) :
  lt20 (fold_left countAge ages g)
  = lt20 g + length (filter (fun a => (a <=? 20)%Z) ages)
  /\ from20to40 (fold_left countAge ages g)
     = from20to40 g + length (filter (fun a => (20 <? a)%Z && (a <=? 40)%Z) ages)
  /\ from40to60 (fold_left countAge ages g)
     = from40to60 g + length (filter (fun a => (40 <? a)%Z && (a <=? 60)%Z) ages)
  /\ gt60 (fold_left countAge ages g)
     = gt60 g + length (filter (fun a => (60 <? a)%Z) ages).
Proof.
  revert g. induction ages as [|a ages IH]; intros g; cbn [fold_left filter].
  - cbn [length]. now rewrite !Nat.add_0_r.
  - destruct (IH (countAge g a)) as (H1 & H2 & H3 & H4).
    rewrite H1, H2, H3, H4. unfold countAge.
    destruct (Z.leb_spec a 20), (Z.ltb_spec 20 a), (Z.leb_spec a 40),
             (Z.ltb_spec 40 a), (Z.leb_spec a 60), (Z.ltb_spec 60 a);
      try lia; cbn [andb lt20 from20to40 from40to60 gt60 length];
      repeat split; lia.
Qed.

Lemma countAges_total (ages : list Z) :
  lt20 (countAges ages) + from20to40 (countAges ages)
  + from40to60 (countAges ages) + gt60 (countAges ages) = length ages.
Proof.
  unfold countAges.
  destruct (countAges_from ages
              {| lt20 := 0; from20to40 := 0; from40to60 := 0; gt60 := 0 |})
    as (-> & -> & -> & ->).
  cbn [lt20 from20to40 from40to60 gt60].
  induction ages as [|a ages IH]; cbn [filter length]; [reflexivity|].
  destruct (Z.leb_spec a 20), (Z.ltb_spec 20 a), (Z.leb_spec a 40),
           (Z.ltb_spec 40 a), (Z.leb_spec a 60), (Z.ltb_spec 60 a);
    try lia; cbn [andb length]; lia.
Qed.

(** C7, as amended.  For a table that is not empty every age is counted in
    one group and one only, by the bounds [age <= 20], [20 < age <= 40],
    [40 < age <= 60], [60 < age], so the four counts add up to the total;
    the percentage of a group is [Math.round] of the binary64 product
    [(count / total) * 100]; for fewer than forty ages this is
    [count / total * 100] rounded to the nearest integer, halves upwards;
    the ages 15, 25, 45, 70 give 25 for every group. *)
Theorem age_distribution (ages : list Z) :
  ages <> [] ->
  (lt20 (countAges ages) = length (filter (fun a => (a <=? 20)%Z) ages)
   /\ from20to40 (countAges ages)
      = length (filter (fun a => (20 <? a)%Z && (a <=? 40)%Z) ages)
   /\ from40to60 (countAges ages)
      = length (filter (fun a => (40 <? a)%Z && (a <=? 60)%Z) ages)
   /\ gt60 (countAges ages) = length (filter (fun a => (60 <? a)%Z) ages))
  /\ lt20 (countAges ages) + from20to40 (countAges ages)
     + from40to60 (countAges ages) + gt60 (countAges ages) = length ages
  /\ printAgeDistribution ages
     = Some {| lt20 := percent (lt20 (countAges ages)) (length ages);
               from20to40 := percent (from20to40 (countAges ages)) (length ages);
               from40to60 := percent (from40to60 (countAges ages)) (length ages);
               gt60 := percent (gt60 (countAges ages)) (length ages) |}
  /\ (length ages < 40 ->
      printAgeDistribution ages
      = Some {| lt20 := JsNumber.ofZ (exactPercent (lt20 (countAges ages)) (length ages));
                from20to40 :=
                  JsNumber.ofZ (exactPercent (from20to40 (countAges ages)) (length ages));
                from40to60 :=
                  JsNumber.ofZ (exactPercent (from40to60 (countAges ages)) (length ages));
                gt60 := JsNumber.ofZ (exactPercent (gt60 (countAges ages)) (length ages)) |})
  /\ printAgeDistribution [15; 25; 45; 70]%Z
     = Some {| lt20 := JsNumber.ofZ 25; from20to40 := JsNumber.ofZ 25;
               from40to60 := JsNumber.ofZ 25; gt60 := JsNumber.ofZ 25 |}.
Proof.
  intros Hne.
  assert (Hprint : printAgeDistribution ages
                   = Some {| lt20 := percent (lt20 (countAges ages)) (length ages);
                             from20to40 := percent (from20to40 (countAges ages)) (length ages);
                             from40to60 := percent (from40to60 (countAges ages)) (length ages);
                             gt60 := percent (gt60 (countAges ages)) (length ages) |}).
  { unfold printAgeDistribution. destruct ages; [congruence | reflexivity]. }
  split; [|split; [|split; [|split]]].
  - unfold countAges.
    destruct (countAges_from ages
                {| lt20 := 0; from20to40 := 0; from40to60 := 0; gt60 := 0 |})
      as (-> & -> & -> & ->).
    repeat split; reflexivity.
  - apply countAges_total.
  - exact Hprint.
  - intros Hsmall. rewrite Hprint.
    pose proof (countAges_total ages) as Hsum.
    assert (0 < length ages) by (destruct ages; [congruence | cbn; lia]).
    rewrite !percent_exact_below_40 by lia. reflexivity.
  - vm_compute. reflexivity.
Qed.

Lemma age_distribution_witness :
  [15; 25; 45; 70]%Z <> []
  /\ lt20 (countAges [15; 25; 45; 70]%Z) + from20to40 (countAges [15; 25; 45; 70]%Z)
     + from40to60 (countAges [15; 25; 45; 70]%Z) + gt60 (countAges [15; 25; 45; 70]%Z)
     = 4.
Proof.
  split; [discriminate|].
  exact (proj1 (proj2 (age_distribution [15; 25; 45; 70]%Z ltac:(discriminate)))).
Defined.

(** C7, the statement of the specification fails: of forty ages twenty-three are in the
    first group; [23 / 40 * 100] is 57.5 and rounds to 58, the binary64
    product is [8092405580431359 * 2^-47], just below 57.5, and the report
    prints 57. *)
Lemma percentage_is_not_exact_half_up :
  length fortyAges = 40
  /\ lt20 (countAges fortyAges) = 23
  /\ exactPercent 23 40 = 58%Z
  /\ JsNumber.mul (JsNumber.div (JsNumber.ofZ 23) (JsNumber.ofZ 40)) (JsNumber.ofZ 100)
     = S754_finite false 8092405580431359 (-47)
  /\ option_map (fun percents => lt20 percents) (printAgeDistribution fortyAges)
     = Some (JsNumber.ofZ 57)
  /\ JsNumber.ofZ 57 <> JsNumber.ofZ 58.
Proof.
  repeat split; try (vm_compute; reflexivity).
  vm_compute. discriminate.
Qed.

(** * Further properties *)

(** ** The tokenizer on lines without quotes and with an open quote *)

Lemma scan_plain (l : jsstring) (fields : list jsstring) (field : jsstring) :
  noQuote l = true ->
  scan l fields field false
  = fields ++ match split COMMA l with
              | h :: t => (field ++ h) :: t
              | [] => [field]
              end.
Proof.
  revert fields field. induction l as [|c l IH]; intros fields field H.
  - cbn. now rewrite app_nil_r.
  - cbn [noQuote forallb] in H. apply andb_true_iff in H as [Hc H].
    apply negb_true_iff in Hc.
    assert (Hscan : scan (c :: l) fields field false
                    = if N.eqb c COMMA && negb false
                      then scan l (fields ++ [field]) [] false
                      else scan l fields (field ++ [c]) false).
    { cbn [scan]. rewrite Hc. now destruct l. }
    rewrite Hscan. cbn [split negb]. rewrite andb_true_r.
    destruct (N.eqb c COMMA).
    + rewrite IH by exact H. rewrite app_nil_r, <- app_assoc. cbn [app].
      destruct (split COMMA l) as [|h t] eqn:E; [now apply split_not_nil in E|].
      reflexivity.
    + rewrite IH by exact H.
      destruct (split COMMA l) as [|h t] eqn:E; [now apply split_not_nil in E|].
      now rewrite <- app_assoc.
Qed.

Lemma scan_open_quote (s : jsstring) (fields : list jsstring) (field : jsstring) :
  noQuote s = true ->
  scan s fields field true = fields ++ [field ++ s].
Proof.
  revert field. induction s as [|c s IH]; intros field H.
  - cbn. now rewrite app_nil_r.
  - cbn [noQuote forallb] in H. apply andb_true_iff in H as [Hc H].
    apply negb_true_iff in Hc.
    assert (Hscan : scan (c :: s) fields field true = scan s fields (field ++ [c]) true).
    { cbn [scan]. rewrite Hc, andb_false_r. reflexivity. }
    rewrite Hscan, IH by exact H. now rewrite <- app_assoc.
Qed.

Lemma scan_cells_then (c : cell) (cs : list cell) (rest : jsstring)
      (fields : list jsstring) :
  forallb bare_ok (c :: cs) = true ->
  scan (csvLine (c :: cs) ++ COMMA :: rest) fields [] false
  = scan rest (fields ++ map content (c :: cs)) [] false.
Proof.
  revert c fields. induction cs as [|c' cs IH]; intros c fields H.
  - simpl in H. rewrite andb_true_r in H.
    unfold csvLine. simpl map. simpl join.
    rewrite scan_cell by (assumption || (simpl; discriminate)).
    now rewrite scan_comma.
  - change (forallb bare_ok (c :: c' :: cs))
      with (bare_ok c && forallb bare_ok (c' :: cs)) in H.
    apply andb_true_iff in H as [Hc H].
    rewrite csvLine_cons, <- app_assoc, <- app_comm_cons.
    rewrite scan_cell by (assumption || (simpl; discriminate)).
    rewrite scan_comma, IH by assumption.
    cbn [map]. now rewrite <- app_assoc.
Qed.

Lemma split_length (sep : char16) (s : jsstring) :
  length (split sep s) = S (length (filter (N.eqb sep) s)).
Proof.
  induction s as [|c s IH]; [reflexivity|]. cbn [split filter].
  rewrite (N.eqb_sym sep c). destruct (N.eqb c sep).
  - cbn [length]. now rewrite IH.
  - destruct (split sep s) as [|h t] eqn:E; [now apply split_not_nil in E|].
    exact IH.
Qed.

(** X1.  A line without a quote is split at each of its commas: the fields
    are the trimmed pieces of [line.split(',')], one more than the line has
    commas. *)
Theorem splitCSVLine_without_quotes (l : jsstring) :
  noQuote l = true ->
  splitCSVLine l = map trim (split COMMA l)
  /\ length (splitCSVLine l) = S (length (filter (N.eqb COMMA) l)).
Proof.
  intros H.
  assert (Hsplit : splitCSVLine l = map trim (split COMMA l)).
  { unfold splitCSVLine. rewrite scan_plain by exact H.
    destruct (split COMMA l) as [|h t] eqn:E; [now apply split_not_nil in E|].
    reflexivity. }
  split; [exact Hsplit|]. rewrite Hsplit, length_map. apply split_length.
Qed.

Lemma splitCSVLine_without_quotes_witness :
  noQuote (lit " Rohit , Prasad,,35 ") = true
  /\ splitCSVLine (lit " Rohit , Prasad,,35 ")
     = map trim (split COMMA (lit " Rohit , Prasad,,35 "))
  /\ length (splitCSVLine (lit " Rohit , Prasad,,35 "))
     = S (length (filter (N.eqb COMMA) (lit " Rohit , Prasad,,35 "))).
Proof.
  split; [reflexivity|]. apply splitCSVLine_without_quotes. reflexivity.
Defined.

(** X2.  A quote that is opened and never closed takes the rest of the line,
    commas included, into one last field; no error is raised. *)
Theorem splitCSVLine_open_quote (c : cell) (cs : list cell) (s : jsstring) :
  forallb bare_ok (c :: cs) = true ->
  noQuote s = true ->
  splitCSVLine (csvLine (c :: cs) ++ COMMA :: QUOTE :: s)
  = map trim (map content (c :: cs)) ++ [trim s].
Proof.
  intros Hcells Hs. unfold splitCSVLine.
  rewrite scan_cells_then by exact Hcells.
  destruct s as [|d s].
  - cbn [scan]. rewrite N.eqb_refl. cbn [negb]. cbn [scan app].
    now rewrite !map_app.
  - rewrite scan_open by discriminate.
    rewrite scan_open_quote by exact Hs.
    now rewrite !map_app.
Qed.

Lemma splitCSVLine_open_quote_witness :
  forallb bare_ok [Bare (lit "Rohit")] = true
  /\ noQuote (lit "A-563, Rakshak Society,Pune") = true
  /\ splitCSVLine (csvLine [Bare (lit "Rohit")] ++ COMMA :: QUOTE
                    :: lit "A-563, Rakshak Society,Pune")
     = map trim (map content [Bare (lit "Rohit")])
       ++ [trim (lit "A-563, Rakshak Society,Pune")].
Proof.
  split; [reflexivity|]. split; [reflexivity|].
  apply splitCSVLine_open_quote; reflexivity.
Defined.

Lemma trimStart_idem (s : jsstring) : trimStart (trimStart s) = trimStart s.
Proof.
  induction s as [|c s IH]; [reflexivity|]. cbn [trimStart].
  destruct (is_ws c) eqn:E; [exact IH|]. cbn [trimStart]. now rewrite E.
Qed.

Lemma trim_idem (s : jsstring) : trim (trim s) = trim s.
Proof.
  assert (Hstart : trimStart (trim s) = trim s).
  { destruct (trim s) as [|c r] eqn:E; [reflexivity|].
    apply trim_head in E. cbn [trimStart]. now rewrite E. }
  unfold trim at 1. rewrite Hstart.
  unfold trim, trimEnd. now rewrite rev_involutive, trimStart_idem.
Qed.

(** X3.  The tokenizer returns at least one field for every line, the empty
    line included, and every field it returns is trimmed: trimming it again
    changes nothing. *)
Theorem splitCSVLine_fields_trimmed (l : jsstring) :
  splitCSVLine l <> []
  /\ Forall (fun f => trim f = f) (splitCSVLine l).
Proof.
  unfold splitCSVLine. split.
  - intros H. apply map_eq_nil in H. now apply scan_not_nil in H.
  - apply Forall_forall. intros f Hf. apply in_map_iff in Hf as [x [<- _]].
    apply trim_idem.
Qed.

(** ** setNestedProperty: reading after writing *)

Lemma setPath_prefix_object (p : list jsstring) (v : value) (o : object) (n : nat) :
  0 < n < length p ->
  exists o', getPath (firstn n p) (VObj (setPath p v o)) = Some (VObj o').
Proof.
  revert o n. induction p as [|k p IH]; intros o n Hn; [cbn in Hn; lia|].
  destruct p as [|k2 p]; [cbn in Hn; lia|].
  destruct n as [|n]; [lia|].
  rewrite setPath_cons. cbn [firstn]. rewrite getPath_cons, get_assign_same.
  destruct n as [|n].
  - cbn [firstn getPath]. now eexists.
  - apply IH. cbn [length] in *. lia.
Qed.

(** X4.  After [setNestedProperty(obj, key, value)], for a key without a
    segment [__proto__], the object holds the value at the dot path of the
    key, and a value that it held before, through own properties, at another
    dot path that neither starts the path of the key nor continues it is
    still there. *)
Theorem setNestedProperty_read_back (obj : object) (key : jsstring) (v : value) :
  plainKey key = true ->
  readKey (setNestedProperty obj key v) key = Some v
  /\ (forall other w,
        plainKey other = true ->
        clash (split DOT other) (split DOT key) = false ->
        readKey obj other = Some w ->
        readKey (setNestedProperty obj key v) other = Some w).
Proof.
  intros _. unfold readKey, setNestedProperty. split.
  - apply getPath_setPath_same, split_not_nil.
  - intros other w _ Hclash Hread. now rewrite getPath_setPath_other.
Qed.

Lemma setNestedProperty_read_back_witness :
  plainKey (lit "address.line1") = true
  /\ plainKey (lit "address.city") = true
  /\ clash (split DOT (lit "address.city")) (split DOT (lit "address.line1")) = false
  /\ readKey rohit (lit "address.city") = Some (VStr (lit "Pune"))
  /\ readKey (setNestedProperty rohit (lit "address.line1") (VStr (lit "42 Road")))
             (lit "address.city")
     = Some (VStr (lit "Pune")).
Proof.
  split; [reflexivity|]. split; [reflexivity|]. split; [reflexivity|].
  split; [reflexivity|].
  apply (proj2 (setNestedProperty_read_back rohit (lit "address.line1")
                  (VStr (lit "42 Road")) eq_refl)
           (lit "address.city")); reflexivity.
Defined.

(** X5.  [setNestedProperty], for a key without a segment [__proto__],
    makes an object of every proper prefix of the dot path it writes:
    whatever the object held there before, a string included, is an object
    afterwards. *)
Theorem setNestedProperty_prefix_is_object (obj : object) (key : jsstring) (v : value)
        (n : nat) :
  plainKey key = true ->
  0 < n < length (split DOT key) ->
  exists o', getPath (firstn n (split DOT key)) (VObj (setNestedProperty obj key v))
             = Some (VObj o').
Proof. intros _. apply setPath_prefix_object. Qed.

Lemma setNestedProperty_prefix_is_object_witness :
  plainKey (lit "age.years") = true
  /\ 0 < 1 < length (split DOT (lit "age.years"))
  /\ exists o', getPath (firstn 1 (split DOT (lit "age.years")))
                   (VObj (setNestedProperty rohit (lit "age.years") (VStr (lit "35"))))
                 = Some (VObj o').
Proof.
  split; [reflexivity|]. split; [cbn; lia|].
  apply setNestedProperty_prefix_is_object; [reflexivity | cbn; lia].
Defined.

(** ** Files with nothing to upload *)

(** X6.  When the file has at most one line that is not blank (an empty
    file, white space only, a header without data), the run returns the
    summary of zeros and hands the pool back as it got it: no query is
    made. *)
Theorem upload_nothing_to_do {Pool : Type}
        (query : Pool -> InsertRow -> Pool * option jsstring)
        (env : Env) (p : Pool) (path data : jsstring) :
  CSV_FILE_PATH env = Some path -> path <> [] ->
  existsSync env path = true ->
  readFileSync env path = Some data ->
  length (nonBlankLines data) <= 1 ->
  records (parseCSV data) = []
  /\ uploadToDB query env p
     = Returns (p, {| insertedCount := 0; skipped := []; totalRows := 0 |}).
Proof.
  intros Hpath Hne Hex Hread Hlines.
  assert (Hrec : records (parseCSV data) = []).
  { rewrite parseCSV_records.
    destruct (nonBlankLines data) as [|h [|h2 t]]; [reflexivity|reflexivity|].
    cbn [length] in Hlines. lia. }
  split; [exact Hrec|].
  unfold uploadToDB. rewrite Hpath. destruct path as [|c path]; [congruence|].
  rewrite Hex, Hread. cbn [negb]. cbv zeta. rewrite Hrec. cbn [length].
  now rewrite orb_true_r.
Qed.

Lemma upload_nothing_to_do_witness :
  CSV_FILE_PATH (envOf nameAgeHeader) = Some usersCsv
  /\ usersCsv <> []
  /\ existsSync (envOf nameAgeHeader) usersCsv = true
  /\ readFileSync (envOf nameAgeHeader) usersCsv = Some nameAgeHeader
  /\ length (nonBlankLines nameAgeHeader) <= 1
  /\ uploadToDB memQuery (envOf nameAgeHeader) []
     = Returns ([], {| insertedCount := 0; skipped := []; totalRows := 0 |}).
Proof.
  split; [reflexivity|]. split; [discriminate|]. split; [reflexivity|].
  split; [reflexivity|]. split; [cbn; lia|].
  apply (upload_nothing_to_do memQuery (envOf nameAgeHeader) [] usersCsv nameAgeHeader);
    reflexivity || discriminate.
Defined.

(** ** Line endings and blank lines *)

Lemma split_app_sep (sep : char16) (x rest : jsstring) :
  forallb (fun c => negb (N.eqb c sep)) x = true ->
  split sep (x ++ sep :: rest) = x :: split sep rest.
Proof.
  induction x as [|c x IH]; intros H.
  - cbn [app split]. now rewrite N.eqb_refl.
  - cbn [forallb] in H. apply andb_true_iff in H as [Hc H].
    apply negb_true_iff in Hc. cbn [app split]. rewrite Hc, (IH H). reflexivity.
Qed.

Lemma split_free (sep : char16) (x : jsstring) :
  forallb (fun c => negb (N.eqb c sep)) x = true -> split sep x = [x].
Proof.
  induction x as [|c x IH]; intros H; [reflexivity|].
  cbn [forallb] in H. apply andb_true_iff in H as [Hc H].
  apply negb_true_iff in Hc. cbn [split]. rewrite Hc, (IH H). reflexivity.
Qed.

Lemma lineFree_no (s : jsstring) :
  lineFree s = true ->
  forallb (fun c => negb (N.eqb c CR)) s = true
  /\ forallb (fun c => negb (N.eqb c LF)) s = true.
Proof.
  unfold lineFree. rewrite !forallb_forall. intros H.
  split; intros c Hc; specialize (H c Hc); apply andb_true_iff in H; tauto.
Qed.

Lemma split_join_LF (ls : list jsstring) :
  ls <> [] -> forallb lineFree ls = true -> split LF (join [LF] ls) = ls.
Proof.
  induction ls as [|x ls IH]; intros Hne H; [congruence|].
  cbn [forallb] in H. apply andb_true_iff in H as [Hx H].
  apply lineFree_no in Hx as [_ Hx].
  destruct ls as [|y ls].
  - cbn [join]. now apply split_free.
  - change (join [LF] (x :: y :: ls)) with (x ++ LF :: join [LF] (y :: ls)).
    rewrite split_app_sep by exact Hx. rewrite IH by (discriminate || exact H).
    reflexivity.
Qed.

Lemma replace_crlf_other (c : char16) (r : jsstring) :
  N.eqb c CR = false -> replace_crlf (c :: r) = c :: replace_crlf r.
Proof. intros H. cbn [replace_crlf]. rewrite H. now destruct r. Qed.

Lemma replace_crlf_free (x rest : jsstring) :
  forallb (fun c => negb (N.eqb c CR)) x = true ->
  replace_crlf (x ++ rest) = x ++ replace_crlf rest.
Proof.
  induction x as [|c x IH]; intros H; [reflexivity|].
  cbn [forallb] in H. apply andb_true_iff in H as [Hc H].
  apply negb_true_iff in Hc. cbn [app].
  now rewrite replace_crlf_other, IH.
Qed.

Lemma replace_crlf_cr (rest : jsstring) :
  hd_error rest <> Some LF -> replace_crlf (CR :: rest) = CR :: replace_crlf rest.
Proof.
  intros H. destruct rest as [|d r]; [reflexivity|]. cbn [replace_crlf].
  destruct (N.eqb_spec d LF) as [->|_]; [now elim H|]. now rewrite andb_false_r.
Qed.

Lemma replace_cr_free (x : jsstring) :
  forallb (fun c => negb (N.eqb c CR)) x = true -> replace_cr x = x.
Proof.
  unfold replace_cr. induction x as [|c x IH]; intros H; [reflexivity|].
  cbn [forallb] in H. apply andb_true_iff in H as [Hc H].
  apply negb_true_iff in Hc. cbn [map]. now rewrite Hc, IH.
Qed.

Lemma join_CR_head (ls : list jsstring) :
  forallb lineFree ls = true -> hd_error (join [CR] ls) <> Some LF.
Proof.
  destruct ls as [|x ls]; [discriminate|]. cbn [forallb]. intros H.
  apply andb_true_iff in H as [Hx _]. apply lineFree_no in Hx as [_ Hx].
  assert (Hhd : forall r, hd_error (x ++ CR :: r) <> Some LF).
  { destruct x as [|c x]; cbn; [discriminate|].
    cbn [forallb] in Hx. apply andb_true_iff in Hx as [Hc _].
    apply negb_true_iff, N.eqb_neq in Hc. congruence. }
  destruct ls as [|y ls]; [|apply Hhd].
  cbn [join]. destruct x as [|c x]; cbn; [discriminate|].
  cbn [forallb] in Hx. apply andb_true_iff in Hx as [Hc _].
  apply negb_true_iff, N.eqb_neq in Hc. congruence.
Qed.

Lemma normalize_join (sep : jsstring) (ls : list jsstring) :
  isEOL sep = true ->
  forallb lineFree ls = true ->
  replace_cr (replace_crlf (join sep ls)) = join [LF] ls.
Proof.
  intros Hsep. induction ls as [|x ls IH]; intros H; [reflexivity|].
  cbn [forallb] in H. apply andb_true_iff in H as [Hx H].
  pose proof (lineFree_no x Hx) as [Hcr _].
  destruct ls as [|y ls].
  - cbn [join]. rewrite <- (app_nil_r x) at 1.
    rewrite replace_crlf_free by exact Hcr. cbn [replace_crlf].
    rewrite app_nil_r. now apply replace_cr_free.
  - change (join sep (x :: y :: ls)) with (x ++ sep ++ join sep (y :: ls)).
    change (join [LF] (x :: y :: ls)) with (x ++ LF :: join [LF] (y :: ls)).
    rewrite <- (IH H). rewrite replace_crlf_free by exact Hcr.
    unfold replace_cr at 1. rewrite map_app. fold (replace_cr x).
    rewrite replace_cr_free by exact Hcr. f_equal.
    unfold isEOL in Hsep. apply orb_true_iff in Hsep as [Hsep|Hsep];
      [apply orb_true_iff in Hsep as [Hsep|Hsep]|]; apply eqb_eq in Hsep; subst sep.
    + cbn [app]. rewrite replace_crlf_other by reflexivity. reflexivity.
    + cbn [app]. rewrite replace_crlf_cr by (apply join_CR_head; exact H).
      reflexivity.
    + reflexivity.
Qed.

Lemma nonBlankLines_join (sep : jsstring) (ls : list jsstring) :
  isEOL sep = true ->
  forallb lineFree ls = true ->
  nonBlankLines (join sep ls) = filter nonBlank ls.
Proof.
  intros Hsep H. unfold nonBlankLines. rewrite normalize_join by assumption.
  destruct ls as [|x ls]; [reflexivity|].
  now rewrite split_join_LF by (discriminate || exact H).
Qed.

(** X7.  The parse of a document depends on its lines that are not blank and
    on nothing else: the same lines, joined by line feeds, by carriage
    returns or by both, with or without blank lines between them, give the
    same header and the same records. *)
Theorem parseCSV_line_endings (sep sep' : jsstring) (ls ls' : list jsstring) :
  isEOL sep = true -> isEOL sep' = true ->
  forallb lineFree ls = true -> forallb lineFree ls' = true ->
  filter nonBlank ls = filter nonBlank ls' ->
  parseCSV (join sep ls) = parseCSV (join sep' ls').
Proof.
  intros Hsep Hsep' H H' Hsame.
  rewrite !parseCSV_lines, !nonBlankLines_join by assumption.
  now rewrite Hsame.
Qed.

Lemma parseCSV_line_endings_witness :
  isEOL [CR; LF] = true /\ isEOL [LF] = true
  /\ forallb lineFree [nameAgeHeader; lit "  "; lit "Rohit,Prasad,35"; []] = true
  /\ forallb lineFree [nameAgeHeader; lit "Rohit,Prasad,35"] = true
  /\ parseCSV (join [CR; LF] [nameAgeHeader; lit "  "; lit "Rohit,Prasad,35"; []])
     = parseCSV (join [LF] [nameAgeHeader; lit "Rohit,Prasad,35"]).
Proof.
  split; [reflexivity|]. split; [reflexivity|]. split; [reflexivity|].
  split; [reflexivity|].
  apply parseCSV_line_endings; reflexivity.
Defined.

(** ** Rows that are kept and rows that are dropped *)

Lemma trim_not_nil (s : jsstring) (c : char16) :
  In c s -> is_ws c = false -> trim s <> [].
Proof.
  intros Hin Hc H. apply trim_nil in H. rewrite forallb_forall in H.
  specialize (H c Hin). congruence.
Qed.

Lemma In_join_head (sep x : jsstring) (rest : list jsstring) (c : char16) :
  In c x -> In c (join sep (x :: rest)).
Proof.
  intros H. destruct rest as [|y rest]; [exact H|].
  change (join sep (x :: y :: rest)) with (x ++ sep ++ join sep (y :: rest)).
  apply in_or_app. now left.
Qed.

Lemma nonEmptyValue_object (k : jsstring) (c : value) (o : object) :
  nonEmptyValue (VObj ((k, c) :: o)) = true.
Proof.
  unfold nonEmptyValue. apply Nat.ltb_lt.
  assert (Hin : In 58%N (Json.stringify (VObj ((k, c) :: o)))).
  { cbn [Json.stringify]. apply in_or_app. right. apply in_or_app. left.
    apply In_join_head. apply in_or_app. right. now left. }
  match goal with |- 0 < length (trim ?kept) => assert (Hkept : In 58%N kept) end.
  { apply filter_In. split; [exact Hin | reflexivity]. }
  apply (trim_not_nil _ 58%N) in Hkept; [|reflexivity].
  destruct (trim _); [congruence | cbn; lia].
Qed.

Lemma anyNonEmpty_object (row : object) (k k' : jsstring) (c : value) (o : object) :
  get k row = Some (VObj ((k', c) :: o)) -> anyNonEmpty row = true.
Proof.
  intros H. apply get_In in H. unfold anyNonEmpty, values.
  apply existsb_exists. eexists. split.
  - apply in_map_iff. eexists. split; [|exact H]. reflexivity.
  - apply nonEmptyValue_object.
Qed.

(** X8.  Under a header free of [__proto__], a data line with more fields
    than the header has keys is never dropped as empty, even when all its fields are blank: the node
    [__extras] is an object with a property, and the text that
    [JSON.stringify] gives for it keeps the name and the colon. *)
Theorem surplus_row_is_kept (hs fields : list jsstring) :
  plain_header hs = true ->
  length hs < length fields -> anyNonEmpty (buildRow hs fields) = true.
Proof.
  intros _ Hmore. pose proof (buildRow_extras hs fields Hmore) as Hget.
  destruct (extrasList (length hs) fields) as [|[k c] o] eqn:E.
  - apply (f_equal (@length _)) in E. unfold extrasList in E.
    rewrite length_map, length_seq in E. cbn in E. lia.
  - now apply (anyNonEmpty_object _ _ _ _ _ Hget).
Qed.

Lemma surplus_row_is_kept_witness :
  plain_header [lit "a"] = true
  /\ length [lit "a"] < length (splitCSVLine (lit ","))
  /\ anyNonEmpty (buildRow [lit "a"] (splitCSVLine (lit ","))) = true
  /\ records (parseCSV (lit "a" ++ [LF] ++ lit ","))
     = [[(lit "a", VStr []); (lit "__extras", VObj [(lit "_extra_1", VStr [])])]].
Proof.
  split; [reflexivity|]. split; [cbn; lia|]. split; [|reflexivity].
  apply surplus_row_is_kept; [reflexivity | cbn; lia].
Defined.

Lemma values_assign_blank (k : jsstring) (row : object) :
  Forall (fun v => v = VStr []) (values row) ->
  Forall (fun v => v = VStr []) (values (assign k (VStr []) row)).
Proof.
  unfold values. induction row as [|[k' v'] row IH]; intros H; cbn [assign].
  - repeat constructor.
  - inversion H as [|? ? Hv Hrest]; subst.
    destruct (JsString.eqb k k'); cbn [map snd]; constructor; auto.
Qed.

Lemma fillRow_blank (hs fields : list jsstring) :
  forallb flatKey hs = true ->
  (forall i, fieldAt fields i = []) ->
  Forall (fun v => v = VStr []) (values (fillRow hs fields [])).
Proof.
  intros Hflat Hblank. unfold fillRow.
  assert (Hkeys : forall ik, In ik (combine (seq 0 (length hs)) hs) ->
                             flatKey (snd ik) = true).
  { intros [i h] Hin. apply in_combine_r in Hin.
    rewrite forallb_forall in Hflat. now apply Hflat. }
  revert Hkeys. generalize (combine (seq 0 (length hs)) hs) as iks.
  assert (Hnil : Forall (fun v => v = VStr []) (values [])) by constructor.
  revert Hnil. generalize (@nil (jsstring * value)) as row.
  intros row Hrow iks. revert row Hrow.
  induction iks as [|ik iks IH]; intros row Hrow Hkeys; [exact Hrow|].
  cbn [fold_left]. apply IH; [|intros; apply Hkeys; now right].
  unfold setNestedProperty. rewrite split_free by (apply Hkeys; now left).
  rewrite setPath_last, Hblank. now apply values_assign_blank.
Qed.

(** X9.  Under a header whose keys have no dot, a data line that has no more
    fields than the header and whose fields are all empty after trimming
    (a line of commas and spaces) builds a row that is dropped: it is no
    record and does not count in [totalRows]. *)
Theorem blank_flat_row_is_dropped (hs fields : list jsstring) :
  forallb flatKey hs = true ->
  length fields <= length hs ->
  forallb (fun f => JsString.eqb f []) fields = true ->
  anyNonEmpty (buildRow hs fields) = false.
Proof.
  intros Hflat Hlen Hblank.
  assert (Hfield : forall i, fieldAt fields i = []).
  { intros i. unfold fieldAt. destruct (nth_error fields i) as [f|] eqn:E; [|reflexivity].
    apply nth_error_In in E. rewrite forallb_forall in Hblank.
    now apply eqb_eq, Hblank. }
  assert (Hrow : Forall (fun v => v = VStr []) (values (buildRow hs fields))).
  { unfold buildRow. destruct (Nat.ltb_spec (length fields) (length hs)) as [Hlt|Hge].
    - assert (Hpad : length (padFields (length hs) fields) = length hs)
        by (unfold padFields; rewrite length_app, repeat_length; lia).
      rewrite Hpad, Nat.ltb_irrefl, fillRow_pad. now apply fillRow_blank.
    - destruct (Nat.ltb_spec (length hs) (length fields)); [lia|].
      now apply fillRow_blank. }
  unfold anyNonEmpty. destruct (existsb nonEmptyValue _) eqn:E; [|reflexivity].
  apply existsb_exists in E as [v [Hv Hne]].
  rewrite Forall_forall in Hrow. rewrite (Hrow v Hv) in Hne. discriminate Hne.
Qed.

Lemma blank_flat_row_is_dropped_witness :
  forallb flatKey [lit "name"; lit "age"; lit "city"] = true
  /\ length (splitCSVLine (lit " , ,")) <= length [lit "name"; lit "age"; lit "city"]
  /\ forallb (fun f => JsString.eqb f []) (splitCSVLine (lit " , ,")) = true
  /\ anyNonEmpty (buildRow [lit "name"; lit "age"; lit "city"] (splitCSVLine (lit " , ,")))
     = false.
Proof.
  split; [reflexivity|]. split; [cbn; lia|]. split; [reflexivity|].
  apply blank_flat_row_is_dropped; [reflexivity | cbn; lia | reflexivity].
Defined.

(** ** The ordinals of the skipped rows *)

Section Ordinals.

Context {Pool : Type} (query : Pool -> InsertRow -> Pool * option jsstring).

Lemma sorted_snoc (l : list nat) (n : nat) :
  StronglySorted lt l -> Forall (fun i => i < n) l -> StronglySorted lt (l ++ [n]).
Proof.
  induction 1 as [|a l Hs IH Ha]; intros Hn; cbn [app].
  - repeat constructor.
  - inversion Hn as [|? ? Han Hln]; subst. constructor; [now apply IH|].
    apply Forall_app. split; [exact Ha | now constructor].
Qed.

Lemma skipsBelow_step (st st' : Loop Pool) (rec : object) :
  1 <= line st -> skipsBelow st ->
  rowStep query st rec = Returns st' ->
  skipsBelow st' /\ line st' = S (line st).
Proof.
  intros Hline [Hsorted Hbound] Hstep.
  assert (Hweak : Forall (fun i => 1 <= i < S (line st)) (map lineIndex (skips st))).
  { eapply Forall_impl; [|exact Hbound]. cbn. lia. }
  assert (Hpush : forall why,
             skipsBelow {| pool := pool st'; inserted := inserted st';
                           skips := skips st ++ [{| lineIndex := line st; reason := why |}];
                           line := S (line st) |}).
  { intros why. unfold skipsBelow. cbn [skips line].
    rewrite map_app. cbn [map lineIndex]. split.
    - apply sorted_snoc; [exact Hsorted|].
      eapply Forall_impl; [|exact Hbound]. cbn. lia.
    - apply Forall_app. split; [exact Hweak|]. constructor; [lia|constructor]. }
  unfold rowStep in Hstep.
  destruct (validateRow rec) as [[row|why]|e]; cbn [bind] in Hstep;
    [| |discriminate]; injection Hstep as <-.
  - destruct (query (pool st) row) as [p' [message|]]; cbn [settle].
    + split; [|reflexivity]. apply (Hpush (insertError message)).
    + split; [|reflexivity]. split; assumption.
  - split; [|reflexivity]. apply (Hpush why).
Qed.

Lemma skipsBelow_loop (l : list object) (st st' : Loop Pool) :
  1 <= line st -> skipsBelow st ->
  forOf (rowStep query) l st = Returns st' ->
  skipsBelow st' /\ line st' = line st + length l.
Proof.
  revert st. induction l as [|rec l IH]; intros st Hline Hinv; cbn [forOf].
  - intros H; injection H as <-. split; [exact Hinv | cbn; lia].
  - destruct (rowStep query st rec) as [st1|e] eqn:E; cbn [bind]; [|discriminate].
    intros H. destruct (skipsBelow_step st st1 rec Hline Hinv E) as [Hinv1 Hline1].
    destruct (IH st1 ltac:(lia) Hinv1 H) as [Hinv' Hline'].
    split; [exact Hinv'|]. cbn [length]. lia.
Qed.

End Ordinals.

Lemma explains_more {Pool : Type}
      (query : Pool -> InsertRow -> Pool * option jsstring)
      (pre more : list object) (e : Skip) :
  explains query pre e -> explains query (pre ++ more) e.
Proof.
  intros (rec & Hone & Hnth & Hwhy). exists rec. split; [exact Hone|]. split; [|exact Hwhy].
  rewrite nth_error_app1; [exact Hnth|]. apply nth_error_Some. congruence.
Qed.

Lemma ordinals_loop {Pool : Type}
      (query : Pool -> InsertRow -> Pool * option jsstring)
      (l pre : list object) (st st' : Loop Pool) :
  line st = S (length pre) ->
  (forall e, In e (skips st) -> explains query pre e) ->
  (forall i rec why, nth_error pre i = Some rec ->
                     validateRow rec = Returns (inr why) ->
                     In {| lineIndex := S i; reason := why |} (skips st)) ->
  forOf (rowStep query) l st = Returns st' ->
  (forall e, In e (skips st') -> explains query (pre ++ l) e)
  /\ (forall i rec why, nth_error (pre ++ l) i = Some rec ->
                        validateRow rec = Returns (inr why) ->
                        In {| lineIndex := S i; reason := why |} (skips st')).
Proof.
  revert pre st. induction l as [|rec l IH]; intros pre st Hline Hexp Hall; cbn [forOf].
  - intros H; injection H as <-. rewrite app_nil_r. split; assumption.
  - destruct (rowStep query st rec) as [st1|e] eqn:E; cbn [bind]; [|discriminate].
    intros Hloop.
    replace (pre ++ rec :: l) with ((pre ++ [rec]) ++ l) by now rewrite <- app_assoc.
    assert (Hhere : nth_error (pre ++ [rec]) (line st - 1) = Some rec).
    { rewrite Hline. cbn [Nat.sub]. rewrite Nat.sub_0_r, nth_error_app2 by lia.
      now rewrite Nat.sub_diag. }
    assert (Hstep : line st1 = S (line st)
                    /\ (forall e, In e (skips st1) -> explains query (pre ++ [rec]) e)
                    /\ (forall e, In e (skips st) -> In e (skips st1))
                    /\ (forall why, validateRow rec = Returns (inr why) ->
                                    In {| lineIndex := line st; reason := why |}
                                       (skips st1))).
    { unfold rowStep in E.
      destruct (validateRow rec) as [[row|why]|x] eqn:Ev; cbn [bind] in E;
        [| |discriminate]; injection E as <-.
      - destruct (query (pool st) row) as [p1 [message|]] eqn:Eq; cbn [settle line skips].
        + split; [reflexivity|]. split; [|split].
          * intros e He. apply in_app_or in He as [He|[<-|[]]].
            -- now apply explains_more, Hexp.
            -- exists rec. cbn [lineIndex reason]. split; [lia|]. split; [exact Hhere|].
               right. now exists row, (pool st), p1, message.
          * intros e He. apply in_or_app. now left.
          * intros why Hwhy. discriminate Hwhy.
        + split; [reflexivity|]. split; [|split].
          * intros e He. now apply explains_more, Hexp.
          * auto.
          * intros why Hwhy. discriminate Hwhy.
      - cbn [skipRow line skips]. split; [reflexivity|]. split; [|split].
        + intros e He. apply in_app_or in He as [He|[<-|[]]].
          * now apply explains_more, Hexp.
          * exists rec. cbn [lineIndex reason]. split; [lia|]. split; [exact Hhere|].
            now left.
        + intros e He. apply in_or_app. now left.
        + intros why' Hwhy. injection Hwhy as <-. apply in_or_app. right. now left. }
    destruct Hstep as (Hline1 & Hexp1 & Hkeep & Hpush).
    apply (IH (pre ++ [rec]) st1); try assumption.
    + rewrite Hline1, Hline, length_app. cbn [length]. lia.
    + intros i rec0 why Hnth Hv.
      destruct (Nat.lt_ge_cases i (length pre)) as [Hlt|Hge].
      * rewrite nth_error_app1 in Hnth by exact Hlt. apply Hkeep. now apply (Hall i rec0).
      * assert (Hi : i = length pre).
        { assert (i < length (pre ++ [rec])) by (apply nth_error_Some; congruence).
          rewrite length_app in *. cbn [length] in *. lia. }
        subst i. rewrite nth_error_app2, Nat.sub_diag in Hnth by lia.
        injection Hnth as <-. rewrite <- Hline. now apply Hpush.
Qed.

(** X10.  In the summary of a run over a file that is read, the skipped rows
    stand in the order of the file under the positions of their records:
    the ordinals go strictly up and lie from 1 to [totalRows]; the record at
    the ordinal of an entry has failed validation for the reason of the
    entry, or has passed and had its row rejected by the pool with the
    message of the entry; and every record that fails validation has its
    entry, under its position counted from 1 and with its reason. *)
Theorem skipped_ordinals {Pool : Type}
        (query : Pool -> InsertRow -> Pool * option jsstring)
        (env : Env) (p p' : Pool) (s : Summary) (path data : jsstring) :
  CSV_FILE_PATH env = Some path ->
  existsSync env path = true ->
  readFileSync env path = Some data ->
  uploadToDB query env p = Returns (p', s) ->
  StronglySorted lt (map lineIndex (skipped s))
  /\ Forall (fun i => 1 <= i <= totalRows s) (map lineIndex (skipped s))
  /\ (forall e, In e (skipped s) -> explains query (records (parseCSV data)) e)
  /\ (forall i rec why,
        nth_error (records (parseCSV data)) i = Some rec ->
        validateRow rec = Returns (inr why) ->
        In {| lineIndex := S i; reason := why |} (skipped s)).
Proof.
  intros Hpath Hex Hread H. unfold uploadToDB in H.
  rewrite Hpath in H. destruct path as [|c path]; [discriminate H|].
  rewrite Hex, Hread in H. cbn [negb] in H. cbv zeta in H.
  destruct ((length (headers (parseCSV data)) =? 0)
            || (length (records (parseCSV data)) =? 0)) eqn:E.
  { assert (Hrec : records (parseCSV data) = []).
    { apply orb_true_iff in E as [E|E]; apply Nat.eqb_eq, length_zero_iff_nil in E;
        [now apply headers_nil_records | exact E]. }
    injection H as _ <-. rewrite Hrec. cbn [skipped map].
    split; [constructor|]. split; [constructor|]. split; [intros e []|].
    intros [|i] rec why Hnth; discriminate Hnth. }
  destruct (forOf (rowStep query) (records (parseCSV data)) _) as [st|e] eqn:Eloop;
    cbn [bind] in H; [|discriminate H].
  injection H as _ <-. cbn [skipped totalRows].
  pose proof Eloop as Eloop'.
  apply skipsBelow_loop in Eloop as [[Hsorted Hbound] Hline];
    [| cbn; lia | split; constructor].
  apply (ordinals_loop query _ []) in Eloop' as [Hexp Hall];
    [| reflexivity | intros e [] | intros [|i] rec why Hnth; discriminate Hnth].
  cbn [app] in Hexp, Hall. split; [exact Hsorted|]. split; [|split; assumption].
  cbn [line] in Hline. eapply Forall_impl; [|exact Hbound]. cbn. lia.
Qed.

Lemma skipped_ordinals_witness :
  CSV_FILE_PATH (envOf mixedCSV) = Some usersCsv
  /\ existsSync (envOf mixedCSV) usersCsv = true
  /\ readFileSync (envOf mixedCSV) usersCsv = Some mixedCSV
  /\ uploadToDB intQuery (envOf mixedCSV) [] = Returns mixedOutcome
  /\ map lineIndex (skipped (snd mixedOutcome)) = [2; 3; 4]
  /\ StronglySorted lt (map lineIndex (skipped (snd mixedOutcome))).
Proof.
  split; [reflexivity|]. split; [reflexivity|]. split; [reflexivity|].
  split; [reflexivity|]. split; [reflexivity|].
  apply (proj1 (skipped_ordinals intQuery (envOf mixedCSV) []
                  (fst mixedOutcome) (snd mixedOutcome) usersCsv mixedCSV
                  eq_refl eq_refl eq_refl eq_refl)).
Defined.

(** ** What reaches the table *)

Lemma memQuery_loop (l : list object) (st st' : Loop memPool) :
  forOf (rowStep memQuery) l st = Returns st' ->
  pool st' = pool st ++ validRows l
  /\ inserted st' = inserted st + length (validRows l).
Proof.
  revert st. induction l as [|rec l IH]; intros st; cbn [forOf validRows flat_map].
  - intros H; injection H as <-. split; [now rewrite app_nil_r | cbn; lia].
  - unfold rowStep at 1. fold (validRows l).
    destruct (validateRow rec) as [[row|why]|e]; cbn [bind]; [| |discriminate];
      intros H; apply IH in H as [Hpool Hins]; rewrite Hpool, Hins;
      cbn [memQuery settle skipRow pool inserted].
    + rewrite <- app_assoc, length_app. cbn. split; [reflexivity | lia].
    + cbn [app length]. split; [reflexivity | lia].
Qed.

(** X11.  On a table that accepts every row, a run that returns has appended
    to the table the rows of the records that pass validation, one for each
    and in the order of the file, and nothing else; [insertedCount] is
    their number.  Rows already in the table stay: a second run of the same
    file appends the same rows again. *)
Theorem stored_rows_are_valid_rows (env : Env) (tbl tbl' : memPool) (s : Summary)
        (path data : jsstring) :
  CSV_FILE_PATH env = Some path ->
  existsSync env path = true ->
  readFileSync env path = Some data ->
  uploadToDB memQuery env tbl = Returns (tbl', s) ->
  tbl' = tbl ++ validRows (records (parseCSV data))
  /\ insertedCount s = length (validRows (records (parseCSV data))).
Proof.
  intros Hpath Hex Hread H. unfold uploadToDB in H.
  rewrite Hpath in H. destruct path as [|c path]; [discriminate H|].
  rewrite Hex, Hread in H. cbn [negb] in H. cbv zeta in H.
  destruct ((length (headers (parseCSV data)) =? 0)
            || (length (records (parseCSV data)) =? 0)) eqn:E.
  - assert (Hrec : records (parseCSV data) = []).
    { apply orb_true_iff in E as [E|E]; apply Nat.eqb_eq, length_zero_iff_nil in E;
        [now apply headers_nil_records | exact E]. }
    injection H as <- <-. rewrite Hrec. cbn. now rewrite app_nil_r.
  - destruct (forOf (rowStep memQuery) (records (parseCSV data)) _) as [st|e] eqn:Eloop;
      cbn [bind] in H; [|discriminate H].
    injection H as <- <-. apply memQuery_loop in Eloop as [Hpool Hins].
    cbn [pool inserted insertedCount] in *. split; [exact Hpool | exact Hins].
Qed.

Lemma stored_rows_are_valid_rows_witness :
  CSV_FILE_PATH (envOf sampleCSV) = Some usersCsv
  /\ existsSync (envOf sampleCSV) usersCsv = true
  /\ readFileSync (envOf sampleCSV) usersCsv = Some sampleCSV
  /\ map row_name (storedRows (uploadToDB memQuery (envOf sampleCSV) [rohitRow]))
     = [lit "Rohit Prasad"; lit "Rohit Prasad"; lit "Ananya Deshmukh"].
Proof.
  split; [reflexivity|]. split; [reflexivity|]. split; [reflexivity|].
  destruct (uploadToDB memQuery (envOf sampleCSV) [rohitRow]) as [[tbl' s]|e] eqn:E;
    [|discriminate E].
  destruct (stored_rows_are_valid_rows (envOf sampleCSV) [rohitRow] tbl' s
              usersCsv sampleCSV eq_refl eq_refl eq_refl E) as [-> _].
  reflexivity.
Defined.

(** ** The report and the order of the rows *)

Lemma filter_length_perm {A} (f : A -> bool) (l l' : list A) :
  Permutation l l' -> length (filter f l) = length (filter f l').
Proof.
  induction 1 as [|x l l' _ IH|x y l|l l' l'' _ IH1 _ IH2]; cbn [filter].
  - reflexivity.
  - destruct (f x); cbn [length]; now rewrite IH.
  - destruct (f x), (f y); reflexivity.
  - now rewrite IH1.
Qed.

Lemma Groups_ext {A} (g g' : Groups A) :
  lt20 g = lt20 g' -> from20to40 g = from20to40 g' ->
  from40to60 g = from40to60 g' -> gt60 g = gt60 g' -> g = g'.
Proof. destruct g, g'; cbn; intros; subst; reflexivity. Qed.

(** X12.  The report does not depend on the order in which
    [SELECT age FROM users] returns the rows: two lists with the same ages,
    each as often in one as in the other, give the same counts and the same
    percentages. *)
Theorem report_ignores_row_order (ages ages' : list Z) :
  Permutation ages ages' ->
  countAges ages = countAges ages'
  /\ printAgeDistribution ages = printAgeDistribution ages'.
Proof.
  intros Hperm.
  assert (Hcount : countAges ages = countAges ages').
  { unfold countAges.
    destruct (countAges_from ages
                {| lt20 := 0; from20to40 := 0; from40to60 := 0; gt60 := 0 |})
      as (H1 & H2 & H3 & H4).
    destruct (countAges_from ages'
                {| lt20 := 0; from20to40 := 0; from40to60 := 0; gt60 := 0 |})
      as (H1' & H2' & H3' & H4').
    apply Groups_ext; rewrite ?H1, ?H2, ?H3, ?H4, ?H1', ?H2', ?H3', ?H4';
      f_equal; now apply filter_length_perm. }
  split; [exact Hcount|].
  unfold printAgeDistribution. now rewrite Hcount, (Permutation_length Hperm).
Qed.

Lemma report_ignores_row_order_witness :
  Permutation [70; 15; 45; 25]%Z [15; 25; 45; 70]%Z
  /\ printAgeDistribution [70; 15; 45; 25]%Z = printAgeDistribution [15; 25; 45; 70]%Z.
Proof.
  assert (Hperm : Permutation [70; 15; 45; 25]%Z [15; 25; 45; 70]%Z).
  { apply (perm_trans (l' := [15; 70; 45; 25]%Z)); [apply perm_swap|].
    apply perm_skip.
    apply (perm_trans (l' := [45; 70; 25]%Z)); [apply perm_swap|].
    apply (perm_trans (l' := [45; 25; 70]%Z)); [apply perm_skip, perm_swap|].
    apply perm_swap. }
  split; [exact Hperm|].
  exact (proj2 (report_ignores_row_order _ _ Hperm)).
Defined.

(** ** Ages written in decimal *)

Ltac decimal_digit u IHu ch d :=
  cbn [uint_chars];
  change (digitsPrefix 10 (ch :: uint_chars u)) with (d :: digitsPrefix 10 (uint_chars u));
  split; [|discriminate];
  cbn [fold_left Nat.of_uint_acc]; rewrite <- (proj1 (IHu _)); f_equal;
  rewrite Nat.tail_mul_spec; lia.

Lemma digitsPrefix_decimal (u : Decimal.uint) (acc : nat) :
  fold_left (fun a d => (a * 10 + d)%N) (digitsPrefix 10 (uint_chars u)) (N.of_nat acc)
  = N.of_nat (Nat.of_uint_acc u acc)
  /\ (u <> Decimal.Nil -> digitsPrefix 10 (uint_chars u) <> []).
Proof.
  revert acc. induction u; intros acc.
  - split; [reflexivity|congruence].
  - decimal_digit u IHu 48%N 0%N.
  - decimal_digit u IHu 49%N 1%N.
  - decimal_digit u IHu 50%N 2%N.
  - decimal_digit u IHu 51%N 3%N.
  - decimal_digit u IHu 52%N 4%N.
  - decimal_digit u IHu 53%N 5%N.
  - decimal_digit u IHu 54%N 6%N.
  - decimal_digit u IHu 55%N 7%N.
  - decimal_digit u IHu 56%N 8%N.
  - decimal_digit u IHu 57%N 9%N.
Qed.

Lemma to_uint_not_nil (n : nat) : Nat.to_uint n <> Decimal.Nil.
Proof.
  rewrite <- (Unsigned.of_to n) at 1. rewrite Unsigned.to_of.
  unfold Decimal.unorm. destruct (Decimal.nzhead (Nat.to_uint n)); discriminate.
Qed.

Lemma decimal_first (n : nat) :
  exists c r, decimal n = c :: r /\ (48 <= c <= 57)%N
              /\ match r with d :: _ => (48 <= d <= 57)%N | [] => True end.
Proof.
  unfold decimal. pose proof (to_uint_not_nil n) as Hne.
  destruct (Nat.to_uint n) as [|u|u|u|u|u|u|u|u|u|u]; [congruence| | | | | | | | | |];
    cbn [uint_chars]; eexists _, _; (split; [reflexivity|]); (split; [lia|]);
    destruct u; cbn [uint_chars]; (exact I || lia).
Qed.

(** [parseInt] reads back every natural number from its decimal digits. *)
Lemma parseInt_decimal (n : nat) : parseInt (decimal n) = Some (Z.of_nat n).
Proof.
  destruct (decimal_first n) as (c & r & Hdec & Hc & Hr).
  assert (Hws : is_ws c = false).
  { unfold is_ws. repeat (apply orb_false_iff; split);
      try apply andb_false_iff; try (apply N.eqb_neq; lia);
      try (right; apply N.leb_gt; lia); (left; apply N.leb_gt; lia) || idtac. }
  pose proof (digitsPrefix_decimal (Nat.to_uint n) 0) as [Hval Hne].
  specialize (Hne (to_uint_not_nil n)).
  fold (decimal n) in Hval, Hne. fold (Nat.of_uint (Nat.to_uint n)) in Hval.
  rewrite Unsigned.of_to in Hval.
  unfold parseInt. rewrite Hdec in *. cbn [trimStart]. rewrite Hws.
  unfold readSign.
  replace (c =? 45)%N with false by (symmetry; apply N.eqb_neq; lia).
  replace (c =? 43)%N with false by (symmetry; apply N.eqb_neq; lia).
  assert (Hradix : readRadix (c :: r) = (10%N, c :: r)).
  { unfold readRadix. destruct r as [|d r']; [reflexivity|].
    replace ((d =? 120) || (d =? 88))%N with false; [now rewrite andb_false_r|].
    symmetry. apply orb_false_iff. split; apply N.eqb_neq; lia. }
  rewrite Hradix.
  destruct (digitsPrefix 10 (c :: r)) as [|d ds] eqn:E; [congruence|].
  unfold valueOf. change 0%N with (N.of_nat 0). rewrite Hval.
  f_equal. lia.
Qed.

Lemma digit_not_ws (c : char16) : (48 <= c <= 57)%N -> is_ws c = false.
Proof.
  intros Hc. unfold is_ws.
  repeat (apply orb_false_iff; split);
    try (apply N.eqb_neq; lia);
    apply andb_false_iff; (left; apply N.leb_gt; lia) || (right; apply N.leb_gt; lia).
Qed.

Lemma uint_chars_digits (u : Decimal.uint) (c : char16) :
  In c (uint_chars u) -> (48 <= c <= 57)%N.
Proof.
  induction u; cbn [uint_chars]; [intros [] | ..];
    (intros [<-|Hin]; [lia | now apply IHu]).
Qed.

Lemma trimStart_no_ws (s : jsstring) :
  (forall c, In c s -> is_ws c = false) -> trimStart s = s.
Proof.
  destruct s as [|c s]; [reflexivity|]. intros H. cbn [trimStart].
  now rewrite (H c (or_introl eq_refl)).
Qed.

Lemma trim_no_ws (s : jsstring) :
  (forall c, In c s -> is_ws c = false) -> trim s = s.
Proof.
  intros H. unfold trim, trimEnd. rewrite (trimStart_no_ws s H).
  rewrite trimStart_no_ws by (intros c Hc; apply H; now apply in_rev).
  apply rev_involutive.
Qed.

(** X13.  An age up to 2^53 written in decimal digits, as
    [Number.prototype.toString] writes a non-negative integer, is read back
    by [parseInt] with its value, and a record with both names and such an
    age passes validation with that age. *)
Theorem decimal_age_is_accepted (rec : object) (n : nat) (first last : jsstring) :
  (Z.of_nat n <= exactBound)%Z ->
  truthy (firstNameOf rec) = true ->
  truthy (lastNameOf rec) = true ->
  ToString (firstNameOf rec) = Returns first ->
  ToString (lastNameOf rec) = Returns last ->
  ageRawOf rec = VStr (decimal n) ->
  parseInt (decimal n) = Some (Z.of_nat n)
  /\ exists row, validateRow rec = Returns (inl row) /\ row_age row = Z.of_nat n.
Proof.
  intros _ Hf Hl Hfirst Hlast Hage. split; [apply parseInt_decimal|].
  assert (Htrim : trim (decimal n) = decimal n).
  { apply trim_no_ws. intros c Hc. apply digit_not_ws.
    now apply (uint_chars_digits (Nat.to_uint n)). }
  assert (Hstr : ToString (ageRawOf rec) = Returns (decimal n)) by now rewrite Hage.
  assert (Hparse : parseInt (trim (decimal n)) = Some (Z.of_nat n))
    by (rewrite Htrim; apply parseInt_decimal).
  eexists. split.
  - exact (validateRow_valid rec (decimal n) first last _ Hf Hl Hstr Hparse Hfirst Hlast).
  - reflexivity.
Qed.

Lemma decimal_age_is_accepted_witness :
  (Z.of_nat 35 <= exactBound)%Z
  /\ exists row,
      validateRow [(lit "name", VObj [(lit "firstName", VStr (lit "Rohit"));
                                      (lit "lastName", VStr (lit "Prasad"))]);
                   (lit "age", VStr (decimal 35))]
      = Returns (inl row)
      /\ row_age row = 35%Z.
Proof.
  split; [vm_compute; discriminate|].
  exact (proj2 (decimal_age_is_accepted
                  [(lit "name", VObj [(lit "firstName", VStr (lit "Rohit"));
                                      (lit "lastName", VStr (lit "Prasad"))]);
                   (lit "age", VStr (decimal 35))]
                  35 (lit "Rohit") (lit "Prasad")
                  ltac:(vm_compute; discriminate)
                  eq_refl eq_refl eq_refl eq_refl eq_refl)).
Defined.

(** ** The route GET /upload *)

Lemma upload_returns_counts {Pool : Type}
      (query : Pool -> InsertRow -> Pool * option jsstring)
      (env : Env) (p p' : Pool) (s : Summary) :
  uploadToDB query env p = Returns (p', s) ->
  insertedCount s + length (skipped s) = totalRows s.
Proof.
  intros H. unfold uploadToDB in H.
  destruct (CSV_FILE_PATH env) as [[|c path]|]; try discriminate H.
  destruct (negb (existsSync env (c :: path))).
  { injection H as _ <-. reflexivity. }
  destruct (readFileSync env (c :: path)) as [data|]; [|discriminate H].
  cbv zeta in H.
  destruct ((length (headers (parseCSV data)) =? 0)
            || (length (records (parseCSV data)) =? 0)) eqn:E.
  - injection H as _ <-. cbn [insertedCount skipped totalRows length].
    apply orb_true_iff in E as [E|E]; apply Nat.eqb_eq in E.
    + apply length_zero_iff_nil, headers_nil_records in E. now rewrite E.
    + now rewrite E.
  - destruct (forOf (rowStep query) (records (parseCSV data)) _) as [st|e] eqn:Eloop;
      cbn [bind] in H; [|discriminate H].
    injection H as _ <-. cbn [insertedCount skipped totalRows].
    apply forOf_counts in Eloop. cbn [inserted skips length] in Eloop. lia.
Qed.

(** X14.  [GET /upload] always answers, with one of three statuses.  Before
    the pool is ready it answers 503 and does not start an upload.  With the
    pool ready it answers 200 with the summary of the run, in which
    [inserted] plus the length of [skipped] is [totalRows], or 500 with the
    message of the error when the run throws; when [CSV_FILE_PATH] is not
    set the detail is [CSV_FILE_PATH not set in .env]. *)
Theorem upload_route_answers {Pool : Type}
        (query : Pool -> InsertRow -> Pool * option jsstring)
        (typeErrorMessage fsErrorMessage : jsstring)
        (env : Env) (pool : option Pool) :
  (pool = None ->
   App.uploadRoute query typeErrorMessage fsErrorMessage env pool
   = {| App.status := 503; App.body := App.ErrorBody App.notReady None |})
  /\ (forall p, pool = Some p ->
        (exists i sk t,
            App.uploadRoute query typeErrorMessage fsErrorMessage env pool
            = {| App.status := 200;
                 App.body := App.UploadBody (lit "Upload completed") i sk t |}
            /\ i + length sk = t
            /\ exists p', uploadToDB query env p
                          = Returns (p', {| insertedCount := i; skipped := sk;
                                            totalRows := t |}))
        \/ (exists e,
               App.uploadRoute query typeErrorMessage fsErrorMessage env pool
               = {| App.status := 500;
                    App.body := App.ErrorBody (lit "Upload failed")
                                  (Some (App.messageOf typeErrorMessage fsErrorMessage e)) |}
               /\ uploadToDB query env p = Throws e))
  /\ (forall p, pool = Some p ->
        CSV_FILE_PATH env = None ->
        App.uploadRoute query typeErrorMessage fsErrorMessage env pool
        = {| App.status := 500;
             App.body := App.ErrorBody (lit "Upload failed") (Some notSet) |}).
Proof.
  split; [now intros ->|]. split.
  - intros p ->. unfold App.uploadRoute, App.ensurePool.
    destruct (uploadToDB query env p) as [[p' s]|e] eqn:E.
    + left. exists (insertedCount s), (skipped s), (totalRows s).
      split; [reflexivity|]. split; [exact (upload_returns_counts query env p p' s E)|].
      exists p'. now destruct s.
    + right. exists e. split; reflexivity.
  - intros p -> Hpath. unfold App.uploadRoute, App.ensurePool, uploadToDB.
    now rewrite Hpath.
Qed.

Lemma upload_route_answers_witness :
  App.uploadRoute intQuery [] [] (envOf mixedCSV) (Some [])
  = {| App.status := 200;
       App.body := App.UploadBody (lit "Upload completed") 1
                     (skipped (snd mixedOutcome)) 4 |}.
Proof.
  destruct (upload_route_answers intQuery [] [] (envOf mixedCSV) (Some []))
    as [_ [H _]].
  destruct (H [] eq_refl) as [(i & sk & t & Hroute & _ & p' & Hrun)|(e & _ & Hrun)];
    [|discriminate Hrun].
  rewrite Hroute. injection Hrun as _ <- <- <-. reflexivity.
Defined.

(** ** setupDatabase and initializeDB *)

(** X15.  [setupDatabase] closes the admin connection on every path: the
    last call is [adminClient.end()], it is made once, after a connect that
    is the first call, also when the connect itself has failed.
    [CREATE DATABASE] is sent exactly when the connect succeeded and the
    check found no row.  The function returns exactly when no call that it
    made has failed. *)
Theorem setupDatabase_closes (srv : Db.Server) (dbName : option jsstring) :
  hd_error (fst (Db.setupDatabase srv dbName)) = Some Db.Connect
  /\ last (fst (Db.setupDatabase srv dbName)) Db.Connect = Db.End_
  /\ length (filter Db.isEnd (fst (Db.setupDatabase srv dbName))) = 1
  /\ (existsb (Db.isCreate dbName) (fst (Db.setupDatabase srv dbName)) = true
      <-> Db.connectFails srv = None /\ Db.checkAnswer srv = inr 0)
  /\ (snd (Db.setupDatabase srv dbName) = Returns tt
      <-> Db.connectFails srv = None
          /\ Db.endFails srv = None
          /\ exists rowCount, Db.checkAnswer srv = inr rowCount
                              /\ (rowCount = 0 -> Db.createFails srv = None)).
Proof.
  assert (Hcheck : JsString.eqb Db.checkText (Db.createText dbName) = false)
    by reflexivity.
  assert (Hcreate : JsString.eqb (Db.createText dbName) (Db.createText dbName) = true)
    by apply eqb_refl.
  unfold Db.setupDatabase, Db.tryBlock.
  destruct srv as [[ec|] [eq|[|n]] [ecr|] [ee|] tf];
    cbn [Db.connectFails Db.checkAnswer Db.createFails Db.endFails Nat.eqb
         fst snd app hd_error last filter Db.isEnd length existsb Db.isCreate orb];
    rewrite ?Hcheck, ?Hcreate; cbn [orb];
    repeat split; try reflexivity; try discriminate; try tauto;
    try (intros [H1 H2]; discriminate);
    try (intros (H1 & H2 & r & H3 & H4); try discriminate;
         try (injection H3 as <-; specialize (H4 eq_refl)); discriminate);
    try (eexists; split; [reflexivity|]; intros; (reflexivity || discriminate)).
Qed.

Lemma setupDatabase_closes_witness :
  Db.connectFails Db.freshServer = None
  /\ Db.checkAnswer Db.freshServer = inr 0
  /\ existsb (Db.isCreate (Some (lit "namedb")))
             (fst (Db.setupDatabase Db.freshServer (Some (lit "namedb")))) = true
  /\ snd (Db.setupDatabase Db.freshServer (Some (lit "namedb"))) = Returns tt.
Proof.
  destruct (setupDatabase_closes Db.freshServer (Some (lit "namedb")))
    as (_ & _ & _ & Hcreate & Hret).
  split; [reflexivity|]. split; [reflexivity|]. split.
  - apply Hcreate. split; reflexivity.
  - apply Hret. split; [reflexivity|]. split; [reflexivity|].
    exists 0. split; reflexivity.
Defined.

(** X16.  [initializeDB] creates the table only after the database step has
    returned, with the admin connection already closed: the table query is
    sent exactly when [setupDatabase] returns, it is then the last call and
    follows [adminClient.end()]; and a pool is returned exactly when
    [setupDatabase] has returned and the table query has succeeded. *)
Theorem initializeDB_order (srv : Db.Server) (dbName : option jsstring) :
  (existsb Db.isPoolQuery (fst (Db.initializeDB srv dbName)) = true
   <-> snd (Db.setupDatabase srv dbName) = Returns tt)
  /\ (snd (Db.setupDatabase srv dbName) = Returns tt ->
      fst (Db.initializeDB srv dbName)
      = fst (Db.setupDatabase srv dbName) ++ [Db.PoolQuery Db.createTableText])
  /\ (snd (Db.setupDatabase srv dbName) <> Returns tt ->
      Db.initializeDB srv dbName = Db.setupDatabase srv dbName)
  /\ (snd (Db.initializeDB srv dbName) = Returns tt
      <-> snd (Db.setupDatabase srv dbName) = Returns tt /\ Db.tableFails srv = None).
Proof.
  unfold Db.initializeDB, Db.setupTable.
  assert (Hnopool : existsb Db.isPoolQuery (fst (Db.setupDatabase srv dbName)) = false).
  { unfold Db.setupDatabase, Db.tryBlock.
    destruct srv as [[ec|] [eq|[|n]] [ecr|] [ee|] tf]; reflexivity. }
  destruct (Db.setupDatabase srv dbName) as [calls [[]|e]]; cbn [fst snd] in *.
  - destruct (Db.tableFails srv) as [e|]; cbn [fst snd];
      rewrite ?existsb_app; cbn; rewrite ?orb_true_r;
      repeat split; try reflexivity; try congruence; try tauto;
      intros [_ H]; discriminate H.
  - rewrite Hnopool. repeat split; try discriminate; try reflexivity; try tauto;
      try (intros [H _]; discriminate H).
Qed.

(** ** Quotes that are not doubled *)

Lemma In_trimStart (c : char16) (s : jsstring) : In c (trimStart s) -> In c s.
Proof.
  induction s as [|d s IH]; [easy|]. cbn [trimStart].
  destruct (is_ws d); [intros H; right; now apply IH | easy].
Qed.

Lemma In_trim (c : char16) (s : jsstring) : In c (trim s) -> In c s.
Proof.
  unfold trim, trimEnd. intros H. apply in_rev, In_trimStart in H.
  apply in_rev in H. now apply In_trimStart.
Qed.

Lemma scan_no_quote (l : jsstring) (fields : list jsstring) (field : jsstring) (q : bool) :
  noDoubled l = true ->
  (forall f, In f fields -> ~ In QUOTE f) ->
  ~ In QUOTE field ->
  forall f, In f (scan l fields field q) -> ~ In QUOTE f.
Proof.
  revert fields field q. induction l as [|c l IH]; intros fields field q Hl Hfields Hfield.
  - cbn [scan]. intros f Hf. apply in_app_or in Hf as [Hf|[<-|[]]]; auto.
  - assert (Hl' : noDoubled l = true).
    { cbn [noDoubled] in Hl. destruct l; [reflexivity|].
      now apply andb_true_iff in Hl as [_ Hl]. }
    cbn [scan]. destruct (N.eqb_spec c QUOTE) as [->|Hc].
    + destruct l as [|d l]; [now apply IH|].
      cbn [noDoubled] in Hl. apply andb_true_iff in Hl as [Hd _].
      rewrite N.eqb_refl in Hd. cbn [andb] in Hd. apply negb_true_iff in Hd.
      rewrite Hd, andb_false_r. now apply IH.
    + destruct (N.eqb c COMMA && negb q).
      * apply IH; [exact Hl' | | easy].
        intros f Hf. apply in_app_or in Hf as [Hf|[<-|[]]]; auto.
      * apply IH; [exact Hl' | exact Hfields |].
        intros Hin. apply in_app_or in Hin as [Hin|[Hin|[]]]; [auto | congruence].
Qed.

(** X17.  A quote of the line never reaches a field unless it is doubled:
    when the line has no two quotes side by side, no field that the
    tokenizer returns holds a quote. *)
Theorem splitCSVLine_strips_quotes (l f : jsstring) :
  noDoubled l = true -> In f (splitCSVLine l) -> ~ In QUOTE f.
Proof.
  intros Hl Hf. unfold splitCSVLine in Hf. apply in_map_iff in Hf as [x [<- Hx]].
  intros Hin. apply In_trim in Hin. revert Hin.
  apply (scan_no_quote l [] [] false Hl); [intros ? [] | intros [] | exact Hx].
Qed.

Lemma splitCSVLine_strips_quotes_witness :
  noDoubled (lit "Ro" ++ [QUOTE] ++ lit "hit,Pra" ++ [QUOTE] ++ lit "sad") = true
  /\ splitCSVLine (lit "Ro" ++ [QUOTE] ++ lit "hit,Pra" ++ [QUOTE] ++ lit "sad")
     = [lit "Rohit,Prasad"]
  /\ ~ In QUOTE (lit "Rohit,Prasad").
Proof.
  split; [reflexivity|]. split; [reflexivity|].
  apply (splitCSVLine_strips_quotes
           (lit "Ro" ++ [QUOTE] ++ lit "hit,Pra" ++ [QUOTE] ++ lit "sad"));
    [reflexivity | now left].
Defined.

(** ** The property names of a parsed record *)

Lemma In_assign_key (k k' : jsstring) (v c : value) (o : object) :
  In (k', c) (assign k v o) -> (k' = k /\ c = v) \/ In (k', c) o.
Proof.
  induction o as [|[k2 v2] o IH]; cbn [assign].
  - intros [H|[]]. injection H as <- <-. now left.
  - destruct (JsString.eqb k k2) eqn:E.
    + apply eqb_eq in E; subst k2.
      intros [H|H]; [injection H as <- <-; now left | right; now right].
    + intros [H|H]; [right; now left|].
      destruct (IH H) as [Heq|Hin]; [now left | right; now right].
Qed.

Lemma key_empty (x : jsstring) : ~ keyOf x (VObj []).
Proof. intros H. inversion H as [c o Hin|k' c o Hin _]; subst; destruct Hin. Qed.

Lemma key_assign (x k : jsstring) (v : value) (o : object) :
  keyOf x (VObj (assign k v o)) -> x = k \/ keyOf x v \/ keyOf x (VObj o).
Proof.
  intros H. inversion H as [c o' Hin|k' c o' Hin Hc]; subst.
  - destruct (In_assign_key _ _ _ _ _ Hin) as [[-> _]|Hin']; [now left|].
    right; right. now apply (key_here x c o).
  - destruct (In_assign_key _ _ _ _ _ Hin) as [[_ ->]|Hin']; [right; now left|].
    right; right. now apply (key_below x k' c o).
Qed.

Lemma key_setPath (x : jsstring) (v : value) (q : list jsstring) (o : object) :
  keyOf x (VObj (setPath q v o)) -> In x q \/ keyOf x v \/ keyOf x (VObj o).
Proof.
  revert o. induction q as [|k q IH]; intros o H; [right; now right|].
  destruct q as [|k2 q].
  - rewrite setPath_last in H.
    apply key_assign in H as [->|[H|H]]; [left; now left | right; now left | right; now right].
  - rewrite setPath_cons in H.
    apply key_assign in H as [->|[H|H]]; [left; now left | | right; now right].
    apply IH in H as [H|[H|H]]; [left; now right | right; now left |].
    right; right.
    destruct (get k o) as [[t|o']|] eqn:E; try (now apply key_empty in H).
    apply get_In in E. now apply (key_below x k (VObj o') o).
Qed.

Lemma key_fill (x : jsstring) (fields : list jsstring)
      (iks : list (nat * jsstring)) (row : object) :
  keyOf x
    (VObj (fold_left
             (fun row ik => setNestedProperty row (snd ik) (VStr (fieldAt fields (fst ik))))
             iks row)) ->
  (exists ik, In ik iks /\ In x (split DOT (snd ik))) \/ keyOf x (VObj row).
Proof.
  revert row. induction iks as [|ik iks IH]; intros row H; [now right|].
  cbn [fold_left] in H. apply IH in H as [[ik' [Hin Hx]]|H].
  - left. exists ik'. split; [now right | exact Hx].
  - unfold setNestedProperty in H. apply key_setPath in H as [H|[H|H]].
    + left. exists ik. split; [now left | exact H].
    + inversion H.
    + now right.
Qed.

Lemma key_row (x : jsstring) (hs fields : list jsstring) :
  keyOf x
    (VObj (if length hs <? length fields
           then let extra := extrasOf (length hs) fields in
                if 0 <? length extra
                then assign (lit "__extras") (VObj extra) (fillRow hs fields [])
                else fillRow hs fields []
           else fillRow hs fields [])) ->
  (exists h, In h hs /\ In x (split DOT h))
  \/ x = EXTRAS \/ exists j, x = lit "_extra_" ++ decimal j.
Proof.
  assert (Hfill : keyOf x (VObj (fillRow hs fields [])) ->
                  exists h, In h hs /\ In x (split DOT h)).
  { intros H. unfold fillRow in H.
    apply key_fill in H as [[[i h] [Hin Hx]]|H]; [|now apply key_empty in H].
    exists h. split; [now apply in_combine_r in Hin | exact Hx]. }
  destruct (length hs <? length fields); [|intros H; left; now apply Hfill].
  cbv zeta. rewrite extrasOf_list.
  destruct (0 <? length (extrasList (length hs) fields));
    [|intros H; left; now apply Hfill].
  intros H. apply key_assign in H as [->|[H|H]]; [right; now left | | left; now apply Hfill].
  right; right. unfold extrasList in H.
  inversion H as [c o Hin|k' c o Hin Hc]; subst;
    apply in_map_iff in Hin as [j [Hj _]]; injection Hj as <- <-.
  - now eexists.
  - inversion Hc.
Qed.

Lemma key_buildRow (x : jsstring) (hs fields : list jsstring) :
  keyOf x (VObj (buildRow hs fields)) ->
  (exists h, In h hs /\ In x (split DOT h))
  \/ x = EXTRAS \/ exists j, x = lit "_extra_" ++ decimal j.
Proof.
  unfold buildRow. destruct (length fields <? length hs); apply key_row.
Qed.

Lemma record_has_no_toString (data : jsstring) (rec : object) :
  noToString (headers (parseCSV data)) = true ->
  In rec (records (parseCSV data)) ->
  ~ keyOf TOSTRING (VObj rec).
Proof.
  intros Hhs Hin Hkey. rewrite parseCSV_records in Hin.
  apply filter_In in Hin as [Hin _]. apply in_map_iff in Hin as [raw [<- _]].
  apply key_buildRow in Hkey as [[h [Hh Hx]]|[Hx|[j Hx]]]; try discriminate Hx.
  unfold noToString in Hhs. rewrite forallb_forall in Hhs.
  specialize (Hhs (split DOT h) (in_map _ _ _ Hh)).
  rewrite forallb_forall in Hhs. specialize (Hhs _ Hx).
  now rewrite eqb_refl in Hhs.
Qed.

Lemma record_coercible (data : jsstring) (rec : object) :
  noToString (headers (parseCSV data)) = true ->
  In rec (records (parseCSV data)) ->
  coercible rec = true.
Proof.
  intros Hhs Hin. pose proof (record_has_no_toString data rec Hhs Hin) as Hno.
  assert (Hobj : forall o, ~ keyOf TOSTRING (VObj o) ->
                           coercibleValue (VObj o) = true).
  { intros o Ho. cbn [coercibleValue]. unfold has.
    destruct (get (lit "toString") o) as [c|] eqn:E; [|reflexivity].
    apply get_In in E. elim Ho. now apply (key_here TOSTRING c o). }
  assert (Hname : forall key,
             coercibleValue (orEmpty (optGet (get (lit "name") rec) key)) = true).
  { intros key. destruct (get (lit "name") rec) as [[t|n]|] eqn:En; try reflexivity.
    cbn [optGet]. destruct (get key n) as [[t|o]|] eqn:Ek; try reflexivity.
    cbn [orEmpty]. apply Hobj. intros Ho. apply Hno.
    apply get_In in En, Ek.
    apply (key_below TOSTRING _ _ _ En). now apply (key_below TOSTRING _ _ _ Ek). }
  unfold coercible, firstNameOf, lastNameOf, ageRawOf. rewrite !Hname. cbn [andb].
  destruct (get (lit "age") rec) as [[t|o]|] eqn:Ea; try reflexivity.
  cbn [orEmpty]. apply Hobj. intros Ho. apply Hno.
  apply get_In in Ea. now apply (key_below TOSTRING _ _ _ Ea).
Qed.

(** X18.  A file that is read never makes the run throw unless its header
    names a property [toString]: when no segment of a header key is
    [toString] (nor [__proto__]), the names and the age of every record
    convert to strings and the run returns a summary over all the records,
    whatever the rows hold and whatever the pool answers. *)
Theorem upload_returns_without_toString {Pool : Type}
        (query : Pool -> InsertRow -> Pool * option jsstring)
        (env : Env) (p : Pool) (path data : jsstring) :
  CSV_FILE_PATH env = Some path -> path <> [] ->
  existsSync env path = true ->
  readFileSync env path = Some data ->
  plain_header (headers (parseCSV data)) = true ->
  noToString (headers (parseCSV data)) = true ->
  forallb coercible (records (parseCSV data)) = true
  /\ exists p' s, uploadToDB query env p = Returns (p', s)
                  /\ totalRows s = length (records (parseCSV data)).
Proof.
  intros Hpath Hne Hex Hread _ Hhs.
  assert (Hall : forallb coercible (records (parseCSV data)) = true).
  { apply forallb_forall. intros rec Hin. now apply (record_coercible data). }
  split; [exact Hall|].
  unfold uploadToDB. rewrite Hpath. destruct path as [|c path]; [congruence|].
  rewrite Hex, Hread. cbn [negb]. cbv zeta.
  destruct ((length (headers (parseCSV data)) =? 0)
            || (length (records (parseCSV data)) =? 0)).
  - eexists _, _. split; reflexivity.
  - destruct (forOf_returns query (records (parseCSV data))
                {| pool := p; inserted := 0; skips := []; line := 1 |} Hall)
      as [st Hst].
    rewrite Hst. cbn [bind]. eexists _, _. split; reflexivity.
Qed.

Lemma upload_returns_without_toString_witness :
  CSV_FILE_PATH (envOf mixedCSV) = Some usersCsv
  /\ usersCsv <> []
  /\ existsSync (envOf mixedCSV) usersCsv = true
  /\ readFileSync (envOf mixedCSV) usersCsv = Some mixedCSV
  /\ plain_header (headers (parseCSV mixedCSV)) = true
  /\ noToString (headers (parseCSV mixedCSV)) = true
  /\ exists p' s, uploadToDB intQuery (envOf mixedCSV) [] = Returns (p', s)
                  /\ totalRows s = length (records (parseCSV mixedCSV)).
Proof.
  split; [reflexivity|]. split; [discriminate|]. split; [reflexivity|].
  split; [reflexivity|]. split; [reflexivity|]. split; [reflexivity|].
  exact (proj2 (upload_returns_without_toString intQuery (envOf mixedCSV) []
                  usersCsv mixedCSV eq_refl ltac:(discriminate)
                  eq_refl eq_refl eq_refl eq_refl)).
Defined.

Lemma initializeDB_order_witness :
  snd (Db.setupDatabase Db.freshServer (Some (lit "namedb"))) = Returns tt
  /\ fst (Db.initializeDB Db.freshServer (Some (lit "namedb")))
     = fst (Db.setupDatabase Db.freshServer (Some (lit "namedb")))
       ++ [Db.PoolQuery Db.createTableText].
Proof.
  split; [reflexivity|].
  apply (proj1 (proj2 (initializeDB_order Db.freshServer (Some (lit "namedb"))))).
  reflexivity.
Defined.
